(** * rstfmt: the extension-registration layer ([rstfmt/rst_extras.py])

    The module installs, into the registries of the host reST parser, a
    replacement for every directive and role it knows about.  A replacement
    parses like the original but, when executed, puts the invocation into the
    tree unexpanded.

    The embedding follows the Python module statement by statement.  The
    registries of the host parser are global mutable dictionaries, and
    [register] can be interrupted by an exception after some registrations
    were already made; both are kept: every statement is an action of a
    state-and-exception monad over the two host registries. *)

From Stdlib Require Import ZArith Ascii String.
From stdpp Require Import base option list gmap strings.

Open Scope string_scope.

(** ** Python values and classes *)

(** The two bodies a directive's [run] attribute can have in this module's
    world: the lambda installed by [_add_directive], or whatever semantic
    expansion the class named [owner] implements. *)
Inductive Method :=
  | passthrough_run
  | original_run (owner : string).

(** An option schema ([option_spec]): a dictionary from option names to
    converters, or sphinx's [DummyOptionSpec]. A converter either returns the
    converted text or rejects the value. *)
Inductive OptionSpec :=
  | declared_spec (converters : gmap string (string → option string))
  | DummyOptionSpec.

Inductive Value :=
  | VNone
  | VBool (b : bool)
  | VInt (n : Z)
  | VOptionSpec (spec : OptionSpec)
  | VMethod (m : Method).

(** A class is either supplied by the host ([host_class]: its attributes as
    its own method resolution order resolves them), or built at run time by
    [type(name, (base,), namespace)]. *)
Inductive Class :=
  | host_class (name : string) (attrs : gmap string Value)
  | type_ (name : string) (base : Class) (namespace : gmap string Value).

Definition __name__ (cls : Class) : string :=
  match cls with
  | host_class name _ => name
  | type_ name _ _ => name
  end.

(** Attribute lookup on a class, for the attributes a class body or a
    namespace defines: the namespace of the class itself, then its single
    base. (The special names [__name__], [__qualname__], [__module__] and
    [__doc__], which [type] binds on every new class, are not looked up
    through it.) *)
Fixpoint class_getattr (cls : Class) (attr : string) : option Value :=
  match cls with
  | host_class _ attrs => attrs !! attr
  | type_ _ base namespace =>
      match namespace !! attr with
      | Some v => Some v
      | None => class_getattr base attr
      end
  end.

(** ** Document tree nodes *)

(** A directive instance as the host parser builds it before calling [run]:
    the class it instantiates and the parsed invocation. *)
Record DirectiveInstance := {
  d_class : Class;
  d_name : string;
  d_arguments : list string;
  d_options : list (string * string);
  d_content : list string;
  d_lineno : Z;
  d_content_offset : Z;
  d_block_text : string;
}.

(** The three node classes of the module ([directive], [role], [ref_role])
    and, opaquely, the nodes an original directive would expand to. *)
Inductive Node :=
  | directive (self : DirectiveInstance)
  | role (rawsource : string) (text : string) (role_name : string)
  | ref_role (rawsource : string) (name : string) (has_explicit_title : bool)
             (target : string) (title : string)
  | semantic_node (owner : string).

Definition system_message := string.

(** What a role invocation of sphinx's [ReferenceRole] has parsed by the time
    [run] is called. *)
Record ReferenceRoleCall := {
  rr_rawtext : string;
  rr_name : string;
  rr_has_explicit_title : bool;
  rr_target : string;
  rr_title : string;
}.

(** [ReferenceRole.run] (lines 40-49). *)
Definition ReferenceRole_run (self : ReferenceRoleCall)
  : list Node * list system_message :=
  let node := ref_role (rr_rawtext self) (rr_name self)
                (rr_has_explicit_title self) (rr_target self) (rr_title self) in
  ([node], []).

(** ** Roles *)

(** [role_aliases] (lines 52-59). *)
Definition role_aliases : gmap string string :=
  list_to_map [
    ("pep", "PEP");
    ("pep-reference", "PEP");
    ("rfc", "RFC");
    ("rfc-reference", "RFC");
    ("subscript", "sub");
    ("superscript", "sup")
  ].

(** [str.lower] on names written in ASCII. *)
Definition lower_ascii (a : ascii) : ascii :=
  let n := nat_of_ascii a in
  if (Nat.leb 65 n && Nat.leb n 90)%bool then ascii_of_nat (n + 32) else a.

Fixpoint lower (s : string) : string :=
  match s with
  | EmptyString => EmptyString
  | String a s => String (lower_ascii a) (lower s)
  end.

(** Modelled from the spec: [docutils.utils.unescape] is the host's and not
    part of the module. With [restore_backslashes=True] it undoes the
    backslash-escaping the grammar applied: the parser encodes an escaping
    backslash as a NUL character, and each NUL becomes a backslash again. *)
Fixpoint unescape_restore_backslashes (text : string) : string :=
  match text with
  | EmptyString => EmptyString
  | String a s =>
      String (if Ascii.eqb a zero then ascii_of_nat 92 else a)
             (unescape_restore_backslashes s)
  end.

(** [generic_role] (lines 62-65). *)
Definition generic_role (r rawtext text : string)
  : list Node * list system_message :=
  let r := default r (role_aliases !! lower r) in
  let text := unescape_restore_backslashes text in
  ([role rawtext text r], []).

(** The callables found in, or put into, the role registry. *)
Inductive RoleCallable :=
  | generic_role_fn                      (* the function [generic_role] *)
  | ReferenceRole_new                    (* an instance [ReferenceRole()] *)
  | host_role (id : string) (is_reference_role : bool).

(** [isinstance(role_callable, sphinx.util.docutils.ReferenceRole)]: the
    module's own [ReferenceRole] subclasses sphinx's. *)
Definition isinstance_ReferenceRole (role_callable : RoleCallable) : bool :=
  match role_callable with
  | generic_role_fn => false
  | ReferenceRole_new => true
  | host_role _ b => b
  end.

(** ** The host registries and the monad of statements *)

Record Registry := {
  _directives : gmap string Class;          (* docutils directives._directives *)
  _role_registry : gmap string RoleCallable; (* docutils roles._role_registry *)
}.

Definition empty_registry : Registry :=
  {| _directives := ∅; _role_registry := ∅ |}.

(** The exceptions the statements of the module meet: [ImportError] (with
    its subclass [ModuleNotFoundError]), [AttributeError], and any other
    class of exception, which no statement of the module catches. *)
Inductive Exception :=
  | ImportError (module : string)
  | AttributeError (obj : string) (attr : string)
  | OtherException (class_name : string).

Inductive Outcome (A : Type) :=
  | Return (a : A) (reg : Registry)
  | Raised (e : Exception) (reg : Registry).
Arguments Return {A} a reg.
Arguments Raised {A} e reg.

Definition M (A : Type) : Type := Registry → Outcome A.

#[global] Instance M_ret : MRet M := λ A a reg, Return a reg.
#[global] Instance M_bind : MBind M := λ A B f m reg,
  match m reg with
  | Return a reg' => f a reg'
  | Raised e reg' => Raised e reg'
  end.

Definition raise {A} (e : Exception) : M A := λ reg, Raised e reg.

(** [for x in l: body(x)] *)
Fixpoint for_each {A} (l : list A) (body : A → M unit) : M unit :=
  match l with
  | [] => mret ()
  | x :: l => body x ;; for_each l body
  end.

(** [try: body / except ImportError: pass / else: orelse] *)
Definition try_except_ImportError {A} (body : M A) (orelse : A → M unit) : M unit :=
  λ reg,
    match body reg with
    | Return a reg' => orelse a reg'
    | Raised (ImportError _) reg' => Return () reg'
    | Raised e reg' => Raised e reg'
    end.

(** Modelled from the spec: the host's [register_directive(name, class)]
    ([directives.register_directive] of docutils) is not part of the module;
    it stores the class under the name. *)
Definition register_directive (name : string) (cls : Class) : M unit :=
  λ reg, Return () {| _directives := <[name := cls]> (_directives reg);
                      _role_registry := _role_registry reg |}.

(** Modelled from the spec: the host's [register_role(name, callable)]
    ([roles.register_canonical_role] of docutils) is not part of the module;
    it stores the callable under the name. The registry is kept under the
    names as [register] passes them. *)
Definition register_canonical_role (name : string) (role_fn : RoleCallable) : M unit :=
  λ reg, Return () {| _directives := _directives reg;
                      _role_registry := <[name := role_fn]> (_role_registry reg) |}.

(** ** The interceptor *)

(** The class [_add_directive] builds (lines 83-89): the namespace is a dict
    display, so the entries of [attrs] come last and win. A keyword argument
    left out is [None] here and takes its default. *)
Definition interceptor_namespace (attrs : option (gmap string Value)) (raw : bool)
  : gmap string Value :=
  default ∅ attrs ∪
  <["raw" := VBool raw]>
    (<["run" := VMethod passthrough_run]>
       (<["option_spec" := VOptionSpec DummyOptionSpec]> ∅)).

Definition interceptor_class (cls : Class) (attrs : option (gmap string Value))
    (raw : option bool) : Class :=
  type_ ("rstfmt_" +:+ __name__ cls) cls (interceptor_namespace attrs (default true raw)).

(** [_add_directive] (lines 68-89). *)
Definition _add_directive (name : string) (cls : Class)
    (attrs : option (gmap string Value)) (raw : option bool) : M unit :=
  register_directive name (interceptor_class cls attrs raw).

(** ** The host environment read by [register] *)

(** The host as one run of [register] reads it. The run walks the class
    hierarchies (lines 122 and 180) before it imports any optional package
    (lines 187-250), so the classes such an import defines are not among
    those the run walks. *)

(** A class together with its direct subclasses, for the classes whose
    hierarchy [_subclasses] walks. A class with several bases shows up below
    each of them, as it does in [__subclasses__()]. *)
#[local] Unset Elimination Schemes.
Inductive PyClass (T : Type) :=
  | py_class (data : T) (subclasses : list (PyClass T)).
#[local] Set Elimination Schemes.
Arguments py_class {T} data subclasses.

Definition cls_data {T} (cls : PyClass T) : T :=
  match cls with py_class data _ => data end.

(** [cls.__subclasses__()] *)
Definition __subclasses__ {T} (cls : PyClass T) : list (PyClass T) :=
  match cls with py_class _ subclasses => subclasses end.

(** A sphinx domain class: its [name], [roles] and [directives]. The two
    dictionaries are kept as their [items()]. *)
Record Domain := {
  domain_name : string;
  domain_roles : list (string * RoleCallable);
  domain_directives : list (string * Class);
}.

(** An autodoc documenter class. *)
Record Documenter := {
  objtype : string;
}.

(** A module that can be imported: its attributes that are classes, which
    is what the module looks modules up for. An attribute of a submodule is
    kept under its dotted path. *)
Abbreviation PyModule := (gmap string Class).

Record Env := {
  (* sphinx.domains.Domain and autodoc.Documenter, with their subclasses *)
  sphinx_domains_Domain : PyClass Domain;
  autodoc_Documenter : PyClass Documenter;
  (* python.PythonDomain *)
  PythonDomain : Domain;
  (* docutils directives._directive_registry.items() *)
  _directive_registry : list (string * (string * string));
  (* what importlib can import *)
  importable : gmap string PyModule;
  (* what the import of any other module raises: [ImportError] for a module
     that is not installed, or whatever else the import runs into *)
  import_failure : string → Exception;
  (* classes reached through the imports at the top of the module *)
  Directive : Class;
  std_Glossary : Class;
  LiteralInclude : Class;
  TocTree : Class;
  VersionChange : Class;
  Only : Class;
  Highlight : Class;
  Todo : Class;
  AutodocDirective : Class;
}.

(** [importlib.import_module(name)] and the [import name] statement. *)
Definition import_module (env : Env) (name : string) : M PyModule :=
  match importable env !! name with
  | Some module => mret module
  | None => raise (import_failure env name)
  end.

(** [module.attr] and [getattr(module, attr)] *)
Definition getattr (module_name : string) (module : PyModule) (attr : string) : M Class :=
  match module !! attr with
  | Some cls => mret cls
  | None => raise (AttributeError module_name attr)
  end.

(** [from name import attr] *)
Definition from_import (env : Env) (name attr : string) : M Class :=
  module ← import_module env name;
  match module !! attr with
  | Some cls => mret cls
  | None => raise (ImportError name)
  end.

(** [_add_optional_directive] (lines 92-100). [getattr(module, directive_cls,
    None)] is the plain lookup, and a class is truthy. *)
Definition _add_optional_directive (env : Env)
    (directive_name directive_cls importlib_name : string) : M unit :=
  try_except_ImportError (import_module env importlib_name)
    (λ module,
       let _cls := module !! directive_cls in
       match _cls with
       | Some _cls => _add_directive directive_name _cls None None
       | None => mret ()
       end).

(** [_subclasses] (lines 103-106); the generator is run to its end. *)
Fixpoint _subclasses {T} (cls : PyClass T) : list (PyClass T) :=
  match cls with
  | py_class _ subclasses =>
      (fix each (l : list (PyClass T)) : list (PyClass T) :=
         match l with
         | [] => []
         | _c :: l => _c :: _subclasses _c ++ each l
         end) subclasses
  end.

(** ** [register] (lines 109-250) *)

Definition standard_roles : list string :=
  ["math"; "pep-reference"; "rfc-reference"; "subscript"; "superscript"].

Definition non_raw_directives : gset string :=
  list_to_set [
    "admonition"; "attention"; "caution"; "danger"; "error"; "hint";
    "important"; "note"; "tip"; "warning";
    "list-table";
    "tabs"; "tab"; "group-tab"; "code-tab"
  ].

Definition exclude_directives : gset string := {[ "role" ]}.

(** Body of the loop over the domains (lines 123-129). *)
Definition register_domain (domain : Domain) : M unit :=
  for_each (domain_roles domain) (λ '(name, role_callable),
    if isinstance_ReferenceRole role_callable then
      register_canonical_role name ReferenceRole_new ;;
      register_canonical_role (domain_name domain +:+ ":" +:+ name) ReferenceRole_new
    else mret ()) ;;
  for_each (domain_directives domain) (λ '(name, directive_cls),
    _add_directive (domain_name domain +:+ ":" +:+ name) directive_cls None None).

(** Body of the loop over the base grammar's directives (lines 166-170). *)
Definition register_base_directive (env : Env)
    (item : string * (string * string)) : M unit :=
  let '(directive_name, (module, cls_name)) := item in
  if bool_decide (directive_name ∈ exclude_directives) then mret ()
  else
    let module_name := "docutils.parsers.rst.directives." +:+ module in
    module ← import_module env module_name;
    cls ← getattr module_name module cls_name;
    _add_directive directive_name cls None
      (Some (bool_decide (directive_name ∉ non_raw_directives))).

(** Body of the loop over autodoc's documenters (lines 181-182). *)
Definition register_documenter (env : Env) (d : Documenter) : M unit :=
  if bool_decide (objtype d ≠ "object") then
    _add_directive ("auto" +:+ objtype d) (AutodocDirective env) None (Some false)
  else mret ().

(** The [sphinx_tabs] block (lines 187-195). *)
Definition register_sphinx_tabs (env : Env) : M unit :=
  try_except_ImportError (import_module env "sphinx_tabs.tabs")
    (λ tabs,
       cls ← getattr "sphinx_tabs.tabs" tabs "TabsDirective";
       _add_directive "tabs" cls None (Some false) ;;
       cls ← getattr "sphinx_tabs.tabs" tabs "TabDirective";
       _add_directive "tab" cls None (Some false) ;;
       cls ← getattr "sphinx_tabs.tabs" tabs "GroupTabDirective";
       _add_directive "group-tab" cls None (Some false) ;;
       cls ← getattr "sphinx_tabs.tabs" tabs "CodeTabDirective";
       _add_directive "code-tab" cls None None).

(** The [sphinx_click] block (lines 197-202). *)
Definition register_sphinx_click (env : Env) : M unit :=
  try_except_ImportError (import_module env "sphinx_click")
    (λ sphinx_click,
       cls ← getattr "sphinx_click" sphinx_click "ext.ClickDirective";
       _add_directive "click" cls None None).

(** The [sphinxarg] block (lines 204-209). *)
Definition register_sphinxarg (env : Env) : M unit :=
  try_except_ImportError (import_module env "sphinxarg.ext")
    (λ ext,
       cls ← getattr "sphinxarg.ext" ext "ArgParseDirective";
       _add_directive "argparse" cls None None).

Definition esp_docs_roles : list string :=
  ["project"; "project_file"; "project_raw";
   "idf"; "idf_file"; "idf_raw";
   "component"; "component_file"; "component_raw";
   "example"; "example_file"; "example_raw";
   "link_to_translation"].

(** The [esp_docs] block (lines 211-237). *)
Definition register_esp_docs (env : Env) : M unit :=
  try_except_ImportError
    (IncludeBuildFile ←
       from_import env "esp_docs.esp_extensions.include_build_file" "IncludeBuildFile";
     ListFilter ←
       from_import env "esp_docs.generic_extensions.list_filter" "ListFilter";
     mret (IncludeBuildFile, ListFilter))
    (λ '(IncludeBuildFile, ListFilter),
       for_each esp_docs_roles (λ r, register_canonical_role r ReferenceRole_new) ;;
       _add_directive "include-build-file" IncludeBuildFile None None ;;
       _add_directive "list" ListFilter None None).

(** The loop of line 180 runs over [set(_subclasses(autodoc.Documenter))],
    in an order Python does not fix; here it runs over the list the walk
    yields. Neither the order nor a class met twice changes the registry
    (lemmas [documenters_loop_order] and [documenters_loop_duplicate]). *)
Definition register (env : Env) : M unit :=
  for_each standard_roles (λ r, register_canonical_role r generic_role_fn) ;;
  register_canonical_role "download" ReferenceRole_new ;;
  for_each (_subclasses (sphinx_domains_Domain env))
    (λ domain, register_domain (cls_data domain)) ;;
  for_each (domain_directives (PythonDomain env)) (λ '(name, directive_cls),
    _add_directive name directive_cls None None) ;;
  _add_directive "role" (Directive env)
    (Some {[ "required_arguments" := VInt 1 ]}) None ;;
  for_each (_directive_registry env) (register_base_directive env) ;;
  _add_directive "glossary" (std_Glossary env) None (Some false) ;;
  _add_directive "literalinclude" (LiteralInclude env) None None ;;
  _add_directive "toctree" (TocTree env) None None ;;
  _add_directive "versionadded" (VersionChange env) None None ;;
  _add_directive "only" (Only env) None None ;;
  _add_directive "highlight" (Highlight env) None None ;;
  _add_directive "todo" (Todo env) None None ;;
  for_each (_subclasses (autodoc_Documenter env))
    (λ d, register_documenter env (cls_data d)) ;;
  register_sphinx_tabs env ;;
  register_sphinx_click env ;;
  register_sphinxarg env ;;
  register_esp_docs env ;;
  _add_optional_directive env "blockdiag" "Blockdiag" "sphinxcontrib.blockdiag" ;;
  _add_optional_directive env "packetdiag" "Packetdiag" "sphinxcontrib.packetdiag" ;;
  _add_optional_directive env "rackdiag" "Rackdiag" "sphinxcontrib.rackdiag" ;;
  _add_optional_directive env "seqdiag" "Seqdiag" "sphinxcontrib.seqdiag" ;;
  _add_optional_directive env "wavedrom" "WavedromDirective" "sphinxcontrib.wavedrom" ;;
  _add_optional_directive env "doxygenstruct" "DoxygenClassDirective"
    "breathe.directives.class_like" ;;
  _add_optional_directive env "doxygenfunction" "DoxygenFunctionDirective"
    "breathe.directives.function".

(** ** What the host parser does with a registered directive *)

Inductive DirectiveError :=
  | unknown_option (name : string)
  | invalid_option_value (name : string) (value : string)
  | no_options_permitted
  | no_run_method.

(** Modelled from the spec: [option_spec[name]]. sphinx's [DummyOptionSpec]
    is not part of the module; it accepts an option with any name and treats
    its value as opaque text ([__getitem__] answers [lambda x: x] for every
    key). *)
Definition option_converter (spec : OptionSpec) (name : string)
  : option (string → option string) :=
  match spec with
  | declared_spec converters => converters !! name
  | DummyOptionSpec => Some (λ x, Some x)
  end.

(** Modelled from the spec: the host parser's validation of the options of
    an invocation against the class's option schema (the [options_schema] of
    the directive base contract) is not part of the module. Every option of
    the invocation is looked up in the schema by name; a name the schema does
    not know, and a value its converter rejects, are errors; otherwise the
    option is kept with the converted value. *)
Fixpoint assemble_option_dict (option_list : list (string * string))
    (spec : OptionSpec) : DirectiveError + list (string * string) :=
  match option_list with
  | [] => inr []
  | (name, value) :: option_list =>
      match option_converter spec name with
      | None => inl (unknown_option name)
      | Some convertor =>
          match convertor value with
          | None => inl (invalid_option_value name value)
          | Some v =>
              match assemble_option_dict option_list spec with
              | inl e => inl e
              | inr options => inr ((name, v) :: options)
              end
          end
      end
  end.

Definition parse_directive_options (cls : Class) (option_list : list (string * string))
  : DirectiveError + list (string * string) :=
  match class_getattr cls "option_spec" with
  | Some (VOptionSpec spec) => assemble_option_dict option_list spec
  | _ => match option_list with [] => inr [] | _ => inl no_options_permitted end
  end.

(** [self.run()]: the nodes returned and, as a log, the original semantic
    expansions that were executed to get them. *)
Definition run (self : DirectiveInstance) : option (list Node * list string) :=
  match class_getattr (d_class self) "run" with
  | Some (VMethod passthrough_run) => Some ([directive self], [])
  | Some (VMethod (original_run owner)) => Some ([semantic_node owner], [owner])
  | _ => None
  end.

(** The text of a directive invocation as the host parser has delimited it. *)
Record Invocation := {
  i_name : string;
  i_arguments : list string;
  i_option_list : list (string * string);
  i_content : list string;
  i_lineno : Z;
  i_content_offset : Z;
  i_block_text : string;
}.

(** Modelled from the spec: the host parser's execution of a directive found
    in its registry is not part of the module: validate the options,
    instantiate the registered class on the parsed invocation, call [run]. *)
Definition run_directive (cls : Class) (inv : Invocation)
  : DirectiveError + (list Node * list string) :=
  match parse_directive_options cls (i_option_list inv) with
  | inl e => inl e
  | inr options =>
      let self := {| d_class := cls; d_name := i_name inv;
                     d_arguments := i_arguments inv; d_options := options;
                     d_content := i_content inv; d_lineno := i_lineno inv;
                     d_content_offset := i_content_offset inv;
                     d_block_text := i_block_text inv |} in
      match run self with
      | Some result => inr result
      | None => inl no_run_method
      end
  end.

(** The [raw] attribute the formatter reads off a directive's class. *)
Definition class_raw (cls : Class) : option bool :=
  match class_getattr cls "raw" with
  | Some (VBool b) => Some b
  | _ => None
  end.

(** ** A small host environment, for running the definitions *)

Module Sample.

(** A host directive class that takes no argument, knows the single option
    [class] and has a semantic expansion of its own. *)
Definition host_directive (name : string) : Class :=
  host_class name
    (<["required_arguments" := VInt 0]>
       (<["option_spec" := VOptionSpec (declared_spec {[ "class" := λ x, Some x ]})]>
          {[ "run" := VMethod (original_run name) ]})).

Definition XRefRole : RoleCallable := host_role "XRefRole" true.
Definition CExprRole : RoleCallable := host_role "CExprRole" false.

Definition CDomain : Domain :=
  {| domain_name := "c";
     domain_roles := [("func", XRefRole); ("expr", CExprRole)];
     domain_directives := [("function", host_directive "CFunctionObject")] |}.

Definition PyDomain : Domain :=
  {| domain_name := "py";
     domain_roles := [("func", XRefRole); ("class", XRefRole)];
     domain_directives := [("function", host_directive "PyFunction");
                           ("class", host_directive "PyClasslike")] |}.

Definition BaseDomain : Domain :=
  {| domain_name := ""; domain_roles := []; domain_directives := [] |}.

Definition docutils_modules : gmap string PyModule :=
  <["docutils.parsers.rst.directives.admonitions" :=
      {[ "Note" := host_directive "Note" ]}]>
    (<["docutils.parsers.rst.directives.misc" :=
         <["Role" := host_directive "Role"]> {[ "Class" := host_directive "Class" ]}]>
       {[ "docutils.parsers.rst.directives.images" :=
            ({[ "Image" := host_directive "Image" ]} : PyModule) ]}).

Definition env : Env :=
  {| sphinx_domains_Domain :=
       py_class BaseDomain [py_class CDomain []; py_class PyDomain []];
     autodoc_Documenter :=
       py_class {| objtype := "object" |}
         [py_class {| objtype := "module" |} [];
          py_class {| objtype := "class" |} [py_class {| objtype := "exception" |} []]];
     PythonDomain := PyDomain;
     _directive_registry :=
       [("note", ("admonitions", "Note")); ("image", ("images", "Image"));
        ("role", ("misc", "Role")); ("class", ("misc", "Class"))];
     importable := docutils_modules;
     import_failure := ImportError;
     Directive := host_directive "Directive";
     std_Glossary := host_directive "Glossary";
     LiteralInclude := host_directive "LiteralInclude";
     TocTree := host_directive "TocTree";
     VersionChange := host_directive "VersionChange";
     Only := host_directive "Only";
     Highlight := host_directive "Highlight";
     Todo := host_directive "Todo";
     AutodocDirective := host_directive "AutodocDirective" |}.

(** The same host with an old [sphinx_tabs] installed, whose [tabs] module
    has no [GroupTabDirective] yet. *)
Definition old_tabs_module : PyModule :=
  <["TabsDirective" := host_directive "TabsDirective"]>
    (<["TabDirective" := host_directive "TabDirective"]>
       {[ "CodeTabDirective" := host_directive "CodeTabDirective" ]}).

Definition env_old_tabs : Env :=
  {| sphinx_domains_Domain := sphinx_domains_Domain env;
     autodoc_Documenter := autodoc_Documenter env;
     PythonDomain := PyDomain;
     _directive_registry := _directive_registry env;
     importable := <["sphinx_tabs.tabs" := old_tabs_module]> docutils_modules;
     import_failure := ImportError;
     Directive := Directive env;
     std_Glossary := std_Glossary env;
     LiteralInclude := LiteralInclude env;
     TocTree := TocTree env;
     VersionChange := VersionChange env;
     Only := Only env;
     Highlight := Highlight env;
     Todo := Todo env;
     AutodocDirective := AutodocDirective env |}.

(** The same host with a current [sphinx_tabs] installed. *)
Definition tabs_module : PyModule :=
  <["GroupTabDirective" := host_directive "GroupTabDirective"]> old_tabs_module.

Definition env_tabs : Env :=
  {| sphinx_domains_Domain := sphinx_domains_Domain env;
     autodoc_Documenter := autodoc_Documenter env;
     PythonDomain := PyDomain;
     _directive_registry := _directive_registry env;
     importable := <["sphinx_tabs.tabs" := tabs_module]> docutils_modules;
     import_failure := ImportError;
     Directive := Directive env;
     std_Glossary := std_Glossary env;
     LiteralInclude := LiteralInclude env;
     TocTree := TocTree env;
     VersionChange := VersionChange env;
     Only := Only env;
     Highlight := Highlight env;
     Todo := Todo env;
     AutodocDirective := AutodocDirective env |}.

(** The same host with the [blockdiag] extension installed. *)
Definition env_blockdiag : Env :=
  {| sphinx_domains_Domain := sphinx_domains_Domain env;
     autodoc_Documenter := autodoc_Documenter env;
     PythonDomain := PyDomain;
     _directive_registry := _directive_registry env;
     importable :=
       <["sphinxcontrib.blockdiag" := {[ "Blockdiag" := host_directive "Blockdiag" ]}]>
         docutils_modules;
     import_failure := ImportError;
     Directive := Directive env;
     std_Glossary := std_Glossary env;
     LiteralInclude := LiteralInclude env;
     TocTree := TocTree env;
     VersionChange := VersionChange env;
     Only := Only env;
     Highlight := Highlight env;
     Todo := Todo env;
     AutodocDirective := AutodocDirective env |}.

(** The same host with a [sphinx_click] installed whose import breaks: it
    raises something else than [ImportError]. *)
Definition env_broken_click : Env :=
  {| sphinx_domains_Domain := sphinx_domains_Domain env;
     autodoc_Documenter := autodoc_Documenter env;
     PythonDomain := PyDomain;
     _directive_registry := _directive_registry env;
     importable := docutils_modules;
     import_failure := λ name,
       if String.eqb name "sphinx_click" then OtherException "SyntaxError"
       else ImportError name;
     Directive := Directive env;
     std_Glossary := std_Glossary env;
     LiteralInclude := LiteralInclude env;
     TocTree := TocTree env;
     VersionChange := VersionChange env;
     Only := Only env;
     Highlight := Highlight env;
     Todo := Todo env;
     AutodocDirective := AutodocDirective env |}.

(** The registry [register] leaves behind, from an empty one. *)
Definition registry (env : Env) : Registry :=
  match register env empty_registry with
  | Return _ reg => reg
  | Raised _ reg => reg
  end.

Definition reg : Registry := registry env.

End Sample.

(** ** Vocabulary of the statements *)

(** [m] keeps [E]: from a registry where [E] holds, [m] leads to one where it
    holds, whether it returns or raises. *)
Definition stable {A} (E : Registry → Prop) (m : M A) : Prop :=
  ∀ reg, E reg → match m reg with Return _ reg' | Raised _ reg' => E reg' end.

(** Three ways a registry (a dictionary of the host) stands after some
    registrations: [name] holds an entry with property [Q]; every entry is
    left over from [m0] or has property [Q]; [name] is as it was in [m0]. *)
Definition entry_at {V} (name : string) (Q : V → Prop) (m : gmap string V) : Prop :=
  ∃ v, m !! name = Some v ∧ Q v.

Definition entries_since {V} (m0 : gmap string V) (Q : string → V → Prop)
    (m : gmap string V) : Prop :=
  ∀ name v, m !! name = Some v → m0 !! name = Some v ∨ Q name v.

Definition entry_kept {V} (m0 : gmap string V) (name : string)
    (m : gmap string V) : Prop :=
  m !! name = m0 !! name.

Definition on_directives (P : gmap string Class → Prop) (reg : Registry) : Prop :=
  P (_directives reg).

Definition on_roles (P : gmap string RoleCallable → Prop) (reg : Registry) : Prop :=
  P (_role_registry reg).

(** The domains the walker discovers, and the documenters. *)
Definition domains (env : Env) : list Domain :=
  cls_data <$> _subclasses (sphinx_domains_Domain env).

Definition documenters (env : Env) : list Documenter :=
  cls_data <$> _subclasses (autodoc_Documenter env).

Definition qualified (domain : Domain) (name : string) : string :=
  domain_name domain +:+ ":" +:+ name.

(** The names of the directives of the base grammar. *)
Definition base_directive_names (env : Env) : list string :=
  (_directive_registry env).*1.

(** The names [register] gives to autodoc's directives. *)
Definition autodoc_directive_names (env : Env) : list string :=
  (λ d, "auto" +:+ objtype d) <$> filter (λ d, objtype d ≠ "object") (documenters env).

(** The directives registered by name after the base grammar's (lines
    172-178), and those of the optional packages (lines 187-250). *)
Definition sphinx_directive_names : list string :=
  ["glossary"; "literalinclude"; "toctree"; "versionadded"; "only"; "highlight"; "todo"].

Definition optional_probes : list (string * string * string) :=
  [("blockdiag", "Blockdiag", "sphinxcontrib.blockdiag");
   ("packetdiag", "Packetdiag", "sphinxcontrib.packetdiag");
   ("rackdiag", "Rackdiag", "sphinxcontrib.rackdiag");
   ("seqdiag", "Seqdiag", "sphinxcontrib.seqdiag");
   ("wavedrom", "WavedromDirective", "sphinxcontrib.wavedrom");
   ("doxygenstruct", "DoxygenClassDirective", "breathe.directives.class_like");
   ("doxygenfunction", "DoxygenFunctionDirective", "breathe.directives.function")].

Definition optional_directive_names : list string :=
  ["tabs"; "tab"; "group-tab"; "code-tab"; "click"; "argparse";
   "include-build-file"; "list"] ++ optional_probes.*1.*1.

(** The directive names the steps after the base grammar's may register. *)
Definition later_directive_names (env : Env) : list string :=
  (sphinx_directive_names ++ autodoc_directive_names env
     ++ optional_directive_names)%list.

(** The optional third-party packages [register] looks for (lines 184-250):
    the four it imports in a [try] block of their own, and those probed
    through [_add_optional_directive]. *)
Inductive Package :=
  | sphinx_tabs
  | sphinx_click
  | sphinxarg
  | esp_docs
  | probed (directive_name directive_cls importlib_name : string).

Definition optional_packages : list Package :=
  [sphinx_tabs; sphinx_click; sphinxarg; esp_docs]
  ++ ((λ '(directive_name, directive_cls, importlib_name),
        probed directive_name directive_cls importlib_name) <$> optional_probes).

(** The statements of [register] that deal with a package. *)
Definition package_block (env : Env) (p : Package) : M unit :=
  match p with
  | sphinx_tabs => register_sphinx_tabs env
  | sphinx_click => register_sphinx_click env
  | sphinxarg => register_sphinxarg env
  | esp_docs => register_esp_docs env
  | probed directive_name directive_cls importlib_name =>
      _add_optional_directive env directive_name directive_cls importlib_name
  end.

(** The modules a package's block imports, each with the class it takes
    from it. *)
Definition package_requires (p : Package) : list (string * string) :=
  match p with
  | sphinx_tabs =>
      [("sphinx_tabs.tabs", "TabsDirective"); ("sphinx_tabs.tabs", "TabDirective");
       ("sphinx_tabs.tabs", "GroupTabDirective");
       ("sphinx_tabs.tabs", "CodeTabDirective")]
  | sphinx_click => [("sphinx_click", "ext.ClickDirective")]
  | sphinxarg => [("sphinxarg.ext", "ArgParseDirective")]
  | esp_docs =>
      [("esp_docs.esp_extensions.include_build_file", "IncludeBuildFile");
       ("esp_docs.generic_extensions.list_filter", "ListFilter")]
  | probed _ directive_cls importlib_name => [(importlib_name, directive_cls)]
  end.

(** The directive and role names a package's block registers. *)
Definition package_directives (p : Package) : list string :=
  match p with
  | sphinx_tabs => ["tabs"; "tab"; "group-tab"; "code-tab"]
  | sphinx_click => ["click"]
  | sphinxarg => ["argparse"]
  | esp_docs => ["include-build-file"; "list"]
  | probed directive_name _ _ => [directive_name]
  end.

Definition package_roles (p : Package) : list string :=
  match p with
  | esp_docs => esp_docs_roles
  | _ => []
  end.

(** The directive names a package's block registers without a
    classification argument: all of them, but for [sphinx_tabs], where only
    [code-tab] (line 195) is. *)
Definition package_unclassified (p : Package) : list string :=
  match p with
  | sphinx_tabs => ["code-tab"]
  | _ => package_directives p
  end.

(** The names [register] registers with an explicit classification that can
    be false: a directive of the base grammar whose name is in the non-raw
    set (line 170), [glossary] (line 172), autodoc's directives (line 182)
    and three of the directives of [sphinx_tabs] (lines 192-194). *)
Definition explicitly_non_raw (env : Env) (name : string) : Prop :=
  (name ∈ base_directive_names env ∧ name ∈ non_raw_directives) ∨
  name = "glossary" ∨
  name ∈ autodoc_directive_names env ∨
  name ∈ ["tabs"; "tab"; "group-tab"].

(** Whether the block of the package also passes over a module that imports
    but lacks the class: [from m import C] raises [ImportError] then, and
    [_add_optional_directive] looks the class up with a default. *)
Definition skips_missing_class (p : Package) : bool :=
  match p with
  | esp_docs | probed _ _ _ => true
  | _ => false
  end.

Definition module_missing (env : Env) (p : Package) : Prop :=
  ∃ name cls, (name, cls) ∈ package_requires p ∧ importable env !! name = None.

Definition class_missing (env : Env) (p : Package) : Prop :=
  ∃ name cls module, (name, cls) ∈ package_requires p ∧
    importable env !! name = Some module ∧ module !! cls = None.

(** No import of the package runs into anything but [ImportError]: a
    module of the package that cannot be imported is just not installed. *)
Definition import_errors_only (env : Env) (p : Package) : Prop :=
  ∀ name cls, (name, cls) ∈ package_requires p →
    importable env !! name = None → ∃ n, import_failure env name = ImportError n.

Definition available (env : Env) (p : Package) : Prop :=
  ∀ name cls, (name, cls) ∈ package_requires p →
    ∃ module c, importable env !! name = Some module ∧ module !! cls = Some c.

(** Every directive of the base grammar that is not excluded can be
    imported from docutils. *)
Definition base_grammar_resolves (env : Env) : Prop :=
  ∀ name module cls_name,
    (name, (module, cls_name)) ∈ _directive_registry env →
    name ∉ exclude_directives →
    ∃ m c, importable env !! ("docutils.parsers.rst.directives." +:+ module) = Some m ∧
           m !! cls_name = Some c.

(** [m] returns, whatever the registry it starts from. *)
Definition returns {A} (m : M A) : Prop :=
  ∀ reg, ∃ a reg', m reg = Return a reg'.

(** [m] returns or raises [ImportError]. *)
Definition returns_or_ImportError {A} (m : M A) : Prop :=
  ∀ reg, (∃ a reg', m reg = Return a reg') ∨ (∃ name reg', m reg = Raised (ImportError name) reg').

(** The roles [register] registers: [generic_role] under the standard names,
    and the reference-role wrapper under [download], the names of esp_docs
    and the names of the reference roles of the domains. *)
Definition registered_role (env : Env) (name : string) (f : RoleCallable) : Prop :=
  (f = generic_role_fn ∧ name ∈ standard_roles) ∨
  (f = ReferenceRole_new ∧
   (name = "download" ∨ name ∈ esp_docs_roles ∨
    ∃ domain n role_callable,
      domain ∈ domains env ∧ (n, role_callable) ∈ domain_roles domain ∧
      isinstance_ReferenceRole role_callable = true ∧
      (name = n ∨ name = domain_name domain +:+ ":" +:+ n))).

(** Whether a name holds a colon, as every domain-qualified name does. *)
Fixpoint has_colon (s : string) : bool :=
  match s with
  | EmptyString => false
  | String a s => Ascii.eqb a ":" || has_colon s
  end.

(** The interceptor's [run]: on every instance of the class, exactly one
    passthrough node around the instance, and no original expansion run. *)
Definition runs_passthrough (c : Class) : Prop :=
  ∀ self, d_class self = c → run self = Some ([directive self], []).

(** The relaxed option schema: whatever the options of an invocation, the
    host accepts them unchanged, and the node produced carries them. *)
Definition options_relaxed (c : Class) : Prop :=
  class_getattr c "option_spec" = Some (VOptionSpec DummyOptionSpec) ∧
  ∀ inv, ∃ self,
    run_directive c inv = inr ([directive self], []) ∧
    d_class self = c ∧ d_options self = i_option_list inv.

(** Two spellings that differ only in the case of ASCII letters. *)
Definition upper_ascii (a : ascii) : ascii :=
  let n := nat_of_ascii a in
  if (Nat.leb 97 n && Nat.leb n 122)%bool then ascii_of_nat (n - 32) else a.

Fixpoint case_variant (s t : string) : Prop :=
  match s, t with
  | EmptyString, EmptyString => True
  | String a s, String b t =>
      (a = b ∨ upper_ascii a = b ∨ a = upper_ascii b) ∧ case_variant s t
  | _, _ => False
  end.

(** ** Vocabulary of the further properties *)

(** [c] is a proper descendant of [cls]: a direct subclass, or a descendant
    of one. *)
Inductive descendant {T} : PyClass T → PyClass T → Prop :=
  | descendant_direct cls c :
      c ∈ __subclasses__ cls → descendant cls c
  | descendant_step cls c c' :
      c ∈ __subclasses__ cls → descendant c c' → descendant cls c'.

(** The names Python itself answers or binds on a class, whatever the
    namespace the class was built from ([__name__], [__qualname__],
    [__module__], [__doc__], [__dict__], [__mro__], ...), start with two
    underscores. *)
Definition special_name (attr : string) : bool :=
  match attr with
  | String "_" (String "_" _) => true
  | _ => false
  end.

(** A registry with the entries of [Wd] and [Wr] laid over it. *)
Definition overlay (Wd : gmap string Class) (Wr : gmap string RoleCallable)
    (reg : Registry) : Registry :=
  {| _directives := Wd ∪ _directives reg;
     _role_registry := Wr ∪ _role_registry reg |}.

(** [m] does the same whatever the registry: it returns the same value or
    raises the same exception, and lays the same entries over the registry. *)
Definition lays_over {A} (m : M A) : Prop :=
  (∃ a Wd Wr, ∀ reg, m reg = Return a (overlay Wd Wr reg)) ∨
  (∃ e Wd Wr, ∀ reg, m reg = Raised e (overlay Wd Wr reg)).

(** The directives registered by name in lines 172-178, with the class and
    the classification given there. *)
Definition sphinx_directives (env : Env) : list (string * Class * option bool) :=
  [("glossary", std_Glossary env, Some false);
   ("literalinclude", LiteralInclude env, None);
   ("toctree", TocTree env, None);
   ("versionadded", VersionChange env, None);
   ("only", Only env, None);
   ("highlight", Highlight env, None);
   ("todo", Todo env, None)].

(** The names under which [register] can register a directive. *)
Definition registered_directive_name (env : Env) (name : string) : Prop :=
  (∃ domain n cls, domain ∈ domains env ∧ (n, cls) ∈ domain_directives domain ∧
                   name = domain_name domain +:+ ":" +:+ n) ∨
  name ∈ (domain_directives (PythonDomain env)).*1 ∨
  name = "role" ∨
  (name ∈ base_directive_names env ∧ name ∉ exclude_directives) ∨
  name ∈ later_directive_names env.

(** The ways [register] can fail: a directive of the base grammar whose
    module docutils cannot import or whose class is not in the module; a
    package imported in a block of its own whose module is there and lacks a
    class; and the import of an optional package that runs into something
    else than [ImportError]. *)
Definition base_grammar_failure (env : Env) (e : Exception) : Prop :=
  ∃ name module cls_name,
    (name, (module, cls_name)) ∈ _directive_registry env ∧
    (name ∉ exclude_directives) ∧
    ((importable env !! ("docutils.parsers.rst.directives." +:+ module) = None ∧
      e = import_failure env ("docutils.parsers.rst.directives." +:+ module)) ∨
     (∃ m, importable env !! ("docutils.parsers.rst.directives." +:+ module) = Some m ∧
           m !! cls_name = None ∧
           e = AttributeError ("docutils.parsers.rst.directives." +:+ module) cls_name)).

Definition package_failure (env : Env) (e : Exception) : Prop :=
  ∃ p name cls m,
    p ∈ [sphinx_tabs; sphinx_click; sphinxarg] ∧
    (name, cls) ∈ package_requires p ∧
    importable env !! name = Some m ∧ m !! cls = None ∧
    e = AttributeError name cls.

Definition optional_import_failure (env : Env) (e : Exception) : Prop :=
  ∃ p name cls,
    p ∈ optional_packages ∧
    (name, cls) ∈ package_requires p ∧
    importable env !! name = None ∧ e = import_failure env name ∧
    ∀ n, e ≠ ImportError n.

(** * Properties *)

(** ** The generic role wrapper *)

Lemma role_aliases_entries alias canonical :
  role_aliases !! alias = Some canonical →
  (alias, canonical) ∈
    [("pep", "PEP"); ("pep-reference", "PEP"); ("rfc", "RFC");
     ("rfc-reference", "RFC"); ("subscript", "sub"); ("superscript", "sup")].
Proof. apply elem_of_list_to_map_2. Qed.

Lemma role_aliases_keys_lower alias canonical :
  role_aliases !! alias = Some canonical → lower alias = alias.
Proof.
  intros H%role_aliases_entries.
  repeat (apply elem_of_cons in H as [[= -> ->] | H]; [reflexivity |]).
  by apply elem_of_nil in H.
Qed.

Lemma lower_ascii_case_variant a b :
  a = b ∨ upper_ascii a = b ∨ a = upper_ascii b →
  lower_ascii b = b → lower_ascii a = b.
Proof.
  intros [-> | [<- | ->]]; [done | |].
  - destruct a as [[] [] [] [] [] [] [] []]; vm_compute; congruence.
  - destruct b as [[] [] [] [] [] [] [] []]; vm_compute; congruence.
Qed.

Lemma lower_case_variant s t :
  case_variant s t → lower t = t → lower s = t.
Proof.
  revert t. induction s as [| a s IH]; intros [| b t]; simpl; try done.
  intros [Hab Hst] [= Hb Ht].
  f_equal; [by apply lower_ascii_case_variant | by apply IH].
Qed.

(** C5: a role invoked under a spelling of the alias table yields a role
    node that stores the canonical spelling; [:pep:`8`] yields a role node
    named [PEP] with content [8]. *)
Theorem generic_role_alias alias canonical rawtext text :
  role_aliases !! alias = Some canonical →
  generic_role alias rawtext text
    = ([role rawtext (unescape_restore_backslashes text) canonical], [])
  ∧ generic_role "pep" rawtext "8" = ([role rawtext "8" "PEP"], []).
Proof.
  intros H. split; [| reflexivity].
  unfold generic_role. by rewrite (role_aliases_keys_lower _ _ H), H.
Qed.

Lemma generic_role_alias_witness :
  role_aliases !! "rfc" = Some "RFC" ∧
  generic_role "rfc" ":rfc:`2822`" "2822" = ([role ":rfc:`2822`" "2822" "RFC"], []).
Proof.
  split; [reflexivity |].
  exact (proj1 (generic_role_alias "rfc" "RFC" ":rfc:`2822`" "2822" eq_refl)).
Defined.

(** C10: the alias lookup is made on the lowercased name, so every case
    variant of an alias spelling is stored as the canonical form, and a name
    whose lowercase has no entry is stored as it was written. *)
Theorem generic_role_case_insensitive r rawtext text :
  (∀ alias canonical,
     role_aliases !! alias = Some canonical → case_variant r alias →
     generic_role r rawtext text
       = ([role rawtext (unescape_restore_backslashes text) canonical], []))
  ∧ (role_aliases !! lower r = None →
     generic_role r rawtext text
       = ([role rawtext (unescape_restore_backslashes text) r], [])).
Proof.
  split.
  - intros alias canonical H Hv. unfold generic_role.
    rewrite (lower_case_variant _ _ Hv (role_aliases_keys_lower _ _ H)).
    by rewrite H.
  - intros H. unfold generic_role. by rewrite H.
Qed.

Lemma generic_role_case_insensitive_witness :
  generic_role "PEP" ":PEP:`8`" "8" = ([role ":PEP:`8`" "8" "PEP"], [])
  ∧ generic_role "Pep" ":Pep:`8`" "8" = ([role ":Pep:`8`" "8" "PEP"], [])
  ∧ generic_role "Emphasis" ":Emphasis:`x`" "x" = ([role ":Emphasis:`x`" "x" "Emphasis"], []).
Proof.
  split; [| split].
  - apply (proj1 (generic_role_case_insensitive "PEP" ":PEP:`8`" "8") "pep" "PEP");
      [reflexivity | vm_compute; tauto].
  - apply (proj1 (generic_role_case_insensitive "Pep" ":Pep:`8`" "8") "pep" "PEP");
      [reflexivity | vm_compute; tauto].
  - apply (proj2 (generic_role_case_insensitive "Emphasis" ":Emphasis:`x`" "x")).
    reflexivity.
Defined.

(** ** Reasoning about sequences of statements *)

Lemma bind_Return {A B} (m : M A) (f : A → M B) reg b reg' :
  (m ≫= f) reg = Return b reg' →
  ∃ a r, m reg = Return a r ∧ f a r = Return b reg'.
Proof.
  unfold mbind, M_bind. destruct (m reg) as [a r | e r]; [eauto | done].
Qed.

Lemma stable_Return {A} E (m : M A) reg a reg' :
  stable E m → E reg → m reg = Return a reg' → E reg'.
Proof. intros Hm HE Hr. specialize (Hm reg HE). by rewrite Hr in Hm. Qed.

Lemma stable_ret {A} E (a : A) : stable E (mret a).
Proof. by intros reg HE. Qed.

Lemma stable_raise {A} E e : stable E (raise e : M A).
Proof. by intros reg HE. Qed.

Lemma stable_bind {A B} E (m : M A) (f : A → M B) :
  stable E m → (∀ a, stable E (f a)) → stable E (m ≫= f).
Proof.
  intros Hm Hf reg HE. specialize (Hm reg HE).
  unfold mbind, M_bind. destruct (m reg) as [a r | e r]; [by apply Hf | done].
Qed.

Lemma stable_for_each {A} E (l : list A) (body : A → M unit) :
  (∀ x, x ∈ l → stable E (body x)) → stable E (for_each l body).
Proof.
  induction l as [| x l IH]; intros H; simpl.
  - apply stable_ret.
  - apply stable_bind; [apply H; left | intros _; apply IH].
    intros y Hy. apply H. by right.
Qed.

Lemma stable_try_except {A} E (body : M A) (orelse : A → M unit) :
  stable E body → (∀ a, stable E (orelse a)) →
  stable E (try_except_ImportError body orelse).
Proof.
  intros Hb Ho reg HE. specialize (Hb reg HE). unfold try_except_ImportError.
  destruct (body reg) as [a r | [] r]; [by apply Ho | done ..].
Qed.

Lemma stable_import_module E env name : stable E (import_module env name).
Proof.
  unfold import_module. destruct (importable env !! name);
    [apply stable_ret | apply stable_raise].
Qed.

Lemma stable_getattr E module_name module attr :
  stable E (getattr module_name module attr).
Proof.
  unfold getattr. destruct (module !! attr); [apply stable_ret | apply stable_raise].
Qed.

Lemma stable_from_import E env name attr : stable E (from_import env name attr).
Proof.
  unfold from_import. apply stable_bind; [apply stable_import_module |].
  intros module. destruct (module !! attr); [apply stable_ret | apply stable_raise].
Qed.

Lemma stable_add_directive P name cls attrs raw :
  (∀ m, P m → P (<[name := interceptor_class cls attrs raw]> m)) →
  stable (on_directives P) (_add_directive name cls attrs raw).
Proof. intros H reg HE. by apply H. Qed.

Lemma stable_role_on_directives P name role_fn :
  stable (on_directives P) (register_canonical_role name role_fn).
Proof. by intros reg HE. Qed.

Lemma stable_register_role P name role_fn :
  (∀ m, P m → P (<[name := role_fn]> m)) →
  stable (on_roles P) (register_canonical_role name role_fn).
Proof. intros H reg HE. by apply H. Qed.

Lemma stable_directive_on_roles P name cls attrs raw :
  stable (on_roles P) (_add_directive name cls attrs raw).
Proof. by intros reg HE. Qed.

(** A loop establishes [E] when one of its iterations does and all keep it. *)
Lemma for_each_establish {A} E (l : list A) (body : A → M unit) x reg reg' :
  x ∈ l →
  (∀ r r', body x r = Return () r' → E r') →
  (∀ y, y ∈ l → stable E (body y)) →
  for_each l body reg = Return () reg' → E reg'.
Proof.
  intros Hx Hest Hst. revert reg.
  induction l as [| y l IH]; intros reg Hrun; [by apply elem_of_nil in Hx |].
  simpl in Hrun. apply bind_Return in Hrun as ([] & r & Hy & Hl).
  apply elem_of_cons in Hx as [-> | Hx].
  - eapply stable_Return; [| | exact Hl]; [| by eapply Hest].
    apply stable_for_each. intros z Hz. apply Hst. by right.
  - eapply IH; [done | | exact Hl]. intros z Hz. apply Hst. by right.
Qed.

Lemma entry_at_insert {V} name (Q : V → Prop) n v (m : gmap string V) :
  (n = name → Q v) → entry_at name Q m → entry_at name Q (<[n := v]> m).
Proof.
  intros H (w & Hw & HQ). unfold entry_at.
  destruct (decide (n = name)) as [-> | Hne].
  - exists v. rewrite lookup_insert_eq. auto.
  - exists w. by rewrite lookup_insert_ne.
Qed.

Lemma entry_at_insert_here {V} name (Q : V → Prop) v (m : gmap string V) :
  Q v → entry_at name Q (<[name := v]> m).
Proof. intros H. exists v. by rewrite lookup_insert_eq. Qed.

Lemma entries_since_insert {V} m0 (Q : string → V → Prop) n v (m : gmap string V) :
  Q n v → entries_since m0 Q m → entries_since m0 Q (<[n := v]> m).
Proof.
  intros H Hm name w. destruct (decide (n = name)) as [-> | Hne].
  - rewrite lookup_insert_eq. intros [= <-]. by right.
  - rewrite lookup_insert_ne by done. apply Hm.
Qed.

Lemma entries_since_refl {V} (m0 : gmap string V) Q : entries_since m0 Q m0.
Proof. intros name v H. by left. Qed.

Lemma entry_kept_insert {V} m0 name n (v : V) (m : gmap string V) :
  n ≠ name → entry_kept m0 name m → entry_kept m0 name (<[n := v]> m).
Proof. intros Hne H. unfold entry_kept. by rewrite lookup_insert_ne. Qed.

(** *** The loop over the documenters does not depend on the order *)

Lemma register_documenter_swap env d1 d2 reg :
  (register_documenter env d1 ;; register_documenter env d2) reg
  = (register_documenter env d2 ;; register_documenter env d1) reg.
Proof.
  unfold register_documenter, mbind, M_bind.
  repeat case_bool_decide; try reflexivity.
  cbv [_add_directive register_directive _directives _role_registry].
  f_equal. f_equal.
  destruct (decide (objtype d1 = objtype d2)) as [-> | Hne]; [reflexivity |].
  apply insert_insert_ne. intros [=]. by apply Hne.
Qed.

Lemma register_documenter_twice env d reg :
  (register_documenter env d ;; register_documenter env d) reg
  = register_documenter env d reg.
Proof.
  unfold register_documenter, mbind, M_bind.
  case_bool_decide; [| reflexivity].
  cbv [_add_directive register_directive _directives _role_registry].
  f_equal. f_equal. apply insert_insert_eq.
Qed.

Lemma documenters_loop_order env (l1 l2 : list (PyClass Documenter)) reg :
  l1 ≡ₚ l2 →
  for_each l1 (λ d, register_documenter env (cls_data d)) reg
  = for_each l2 (λ d, register_documenter env (cls_data d)) reg.
Proof.
  intros H. revert reg.
  induction H as [| x l1 l2 H IH | x y l | l1 l2 l3 H1 IH1 H2 IH2]; intros reg.
  - reflexivity.
  - simpl. unfold mbind, M_bind.
    destruct (register_documenter env (cls_data x) reg); [apply IH | reflexivity].
  - simpl.
    pose proof (register_documenter_swap env (cls_data y) (cls_data x) reg) as Hswap.
    unfold mbind, M_bind in *.
    destruct (register_documenter env (cls_data y) reg) as [[] r1 | e r1];
      destruct (register_documenter env (cls_data x) reg) as [[] r2 | e' r2];
      try discriminate Hswap.
    + destruct (register_documenter env (cls_data x) r1) as [[] r3 | e r3];
        destruct (register_documenter env (cls_data y) r2) as [[] r4 | e' r4];
        first [discriminate Hswap | exact Hswap | by injection Hswap as ->].
    + by destruct (register_documenter env (cls_data x) r1).
    + by destruct (register_documenter env (cls_data y) r2).
    + exact Hswap.
  - by rewrite IH1.
Qed.

Lemma documenters_loop_duplicate env (l : list (PyClass Documenter)) d reg :
  d ∈ l →
  for_each (d :: l) (λ d, register_documenter env (cls_data d)) reg
  = for_each l (λ d, register_documenter env (cls_data d)) reg.
Proof.
  intros (k & Hk)%elem_of_Permutation.
  rewrite (documenters_loop_order env (d :: l) (d :: d :: k) reg)
    by (by constructor).
  rewrite (documenters_loop_order env l (d :: k) reg) by done.
  simpl. pose proof (register_documenter_twice env (cls_data d) reg) as Htwice.
  unfold mbind, M_bind in *.
  destruct (register_documenter env (cls_data d) reg) as [[] r1 | e r1];
    [| reflexivity].
  destruct (register_documenter env (cls_data d) r1) as [[] r2 | e r2];
    [by injection Htwice as -> | discriminate Htwice].
Qed.

(** Takes a [stable] goal on a block of statements apart, down to the
    single registrations. *)
Ltac stable_split_with tac :=
  repeat
    (cbv beta zeta;
     first [ tac |
     lazymatch goal with
     | |- stable _ (mret _) => apply stable_ret
     | |- stable _ (raise _) => apply stable_raise
     | |- stable _ (import_module _ _) => apply stable_import_module
     | |- stable _ (getattr _ _ _) => apply stable_getattr
     | |- stable _ (from_import _ _ _) => apply stable_from_import
     | |- stable (on_directives _) (register_canonical_role _ _) =>
         apply stable_role_on_directives
     | |- stable (on_roles _) (_add_directive _ _ _ _) =>
         apply stable_directive_on_roles
     | |- stable _ (for_each _ _) => apply stable_for_each; intros ? ?
     | |- stable _ (_ ≫= _) => apply stable_bind; [| intros ?]
     | |- stable _ (try_except_ImportError _ _) =>
         apply stable_try_except; [| intros ?]
     | |- stable _ (register_domain _) => unfold register_domain
     | |- stable _ (register_base_directive _ _) => unfold register_base_directive
     | |- stable _ (register_documenter _ _) => unfold register_documenter
     | |- stable _ (register_sphinx_tabs _) => unfold register_sphinx_tabs
     | |- stable _ (register_sphinx_click _) => unfold register_sphinx_click
     | |- stable _ (register_sphinxarg _) => unfold register_sphinxarg
     | |- stable _ (register_esp_docs _) => unfold register_esp_docs
     | |- stable _ (_add_optional_directive _ _ _ _) => unfold _add_optional_directive
     | |- stable _ (let '(_, _) := ?x in _) => destruct x
     | |- stable _ (match ?x with Some _ => _ | None => _ end) => destruct x
     | |- stable _ (if ?b then _ else _) => destruct b eqn:?
     end ]).

Ltac stable_split := stable_split_with fail.

(** Peels the first statement off a run that returned. *)
Tactic Notation "step" hyp(H) "as" ident(H1) :=
  let a := fresh "a" in
  let r := fresh "r" in
  apply bind_Return in H as (a & r & H1 & H);
  lazymatch type of a with unit => destruct a | _ => idtac end.

Tactic Notation "step" hyp(H) :=
  let H1 := fresh "Hstep" in step H as H1.

(** ** The domain walk: reference roles *)

Lemma register_domain_role target domain name role_callable reg reg' :
  (name, role_callable) ∈ domain_roles domain →
  isinstance_ReferenceRole role_callable = true →
  target = name ∨ target = qualified domain name →
  register_domain domain reg = Return () reg' →
  on_roles (entry_at target (λ f, f = ReferenceRole_new)) reg'.
Proof.
  intros Hin Hinst Htarget Hrun. unfold register_domain in Hrun.
  step Hrun as Hroles.
  eapply stable_Return; [| | exact Hrun].
  { stable_split. }
  eapply for_each_establish; [exact Hin | | | exact Hroles].
  - cbv beta iota. rewrite Hinst. intros r0 r' H. step H as Hbare.
    destruct Htarget as [-> | ->].
    + eapply stable_Return; [| | exact H].
      * apply stable_register_role. intros m. by apply entry_at_insert.
      * unfold register_canonical_role in Hbare. injection Hbare as <-.
        by apply entry_at_insert_here.
    + unfold register_canonical_role in H. injection H as <-.
      by apply entry_at_insert_here.
  - intros [n rc] _. destruct (isinstance_ReferenceRole rc); stable_split;
      apply stable_register_role; intros m; by apply entry_at_insert.
Qed.

Lemma elem_of_domains env domain :
  domain ∈ domains env →
  ∃ cls, cls ∈ _subclasses (sphinx_domains_Domain env) ∧ cls_data cls = domain.
Proof. intros (cls & -> & H)%list_elem_of_fmap. eauto. Qed.

Lemma register_reference_role env reg0 reg target domain name role_callable :
  register env reg0 = Return () reg →
  domain ∈ domains env →
  (name, role_callable) ∈ domain_roles domain →
  isinstance_ReferenceRole role_callable = true →
  target = name ∨ target = qualified domain name →
  _role_registry reg !! target = Some ReferenceRole_new.
Proof.
  intros Hrun (cls & Hcls & <-)%elem_of_domains Hin Hinst Htarget.
  unfold register in Hrun.
  step Hrun as Hstandard. step Hrun as Hdownload. step Hrun as Hdomains.
  cut (on_roles (entry_at target (λ f, f = ReferenceRole_new)) reg).
  { by intros (f & Hf & ->). }
  eapply stable_Return; [| | exact Hrun].
  { stable_split.
    all: apply stable_register_role; intros m; by apply entry_at_insert. }
  eapply for_each_establish; [exact Hcls | | | exact Hdomains].
  - intros ? ?. by apply register_domain_role with name role_callable.
  - intros y _. stable_split.
    all: apply stable_register_role; intros m; by apply entry_at_insert.
Qed.

(** C7: every role of a discovered domain whose callable is a reference
    role is registered as the reference-role wrapper, under its bare name and
    under its domain-qualified name. *)
Theorem domain_reference_roles_registered env reg0 reg domain name role_callable :
  register env reg0 = Return () reg →
  domain ∈ domains env →
  (name, role_callable) ∈ domain_roles domain →
  isinstance_ReferenceRole role_callable = true →
  _role_registry reg !! name = Some ReferenceRole_new ∧
  _role_registry reg !! (domain_name domain +:+ ":" +:+ name) = Some ReferenceRole_new.
Proof.
  intros Hrun Hdom Hin Hinst.
  split; eapply register_reference_role; eauto.
Qed.

Lemma returned_registry (o : Outcome unit) :
  match o with Return _ _ => True | Raised _ _ => False end →
  o = Return () match o with Return _ reg => reg | Raised _ reg => reg end.
Proof. by destruct o as [[] reg | e reg]. Defined.

Lemma sample_register :
  register Sample.env empty_registry = Return () Sample.reg.
Proof.
  apply (returned_registry (register Sample.env empty_registry)).
  vm_compute. exact I.
Defined.

Lemma domain_reference_roles_registered_witness :
  _role_registry Sample.reg !! "func" = Some ReferenceRole_new ∧
  _role_registry Sample.reg !! "c:func" = Some ReferenceRole_new.
Proof.
  apply (domain_reference_roles_registered Sample.env empty_registry Sample.reg
           Sample.CDomain "func" Sample.XRefRole sample_register).
  - vm_compute. left.
  - left.
  - reflexivity.
Defined.

(** ** The interceptor *)

Lemma interceptor_getattr cls attrs raw attr :
  default ∅ attrs !! attr = None →
  class_getattr (interceptor_class cls attrs raw) attr =
    match
      (<["raw" := VBool (default true raw)]>
         (<["run" := VMethod passthrough_run]>
            (<["option_spec" := VOptionSpec DummyOptionSpec]> ∅))
       : gmap string Value) !! attr
    with
    | Some v => Some v
    | None => class_getattr cls attr
    end.
Proof.
  intros H. simpl. unfold interceptor_namespace.
  by rewrite (lookup_union_r _ _ _ H).
Qed.

Lemma interceptor_runs_passthrough cls attrs raw :
  default ∅ attrs !! "run" = None →
  runs_passthrough (interceptor_class cls attrs raw).
Proof.
  intros H self Hself. unfold run.
  by rewrite Hself, (interceptor_getattr _ _ _ _ H).
Qed.

Lemma assemble_option_dict_dummy option_list :
  assemble_option_dict option_list DummyOptionSpec = inr option_list.
Proof.
  induction option_list as [| [name value] l IH]; [done |].
  simpl. by rewrite IH.
Qed.

Lemma interceptor_options_relaxed cls attrs raw :
  default ∅ attrs !! "option_spec" = None →
  default ∅ attrs !! "run" = None →
  options_relaxed (interceptor_class cls attrs raw).
Proof.
  intros Hspec Hrun. split.
  - by rewrite (interceptor_getattr _ _ _ _ Hspec).
  - intros inv. eexists. split.
    + unfold run_directive, parse_directive_options.
      rewrite (interceptor_getattr _ _ _ _ Hspec).
      change (_ !! "option_spec") with (Some (VOptionSpec DummyOptionSpec)).
      cbv beta iota. rewrite assemble_option_dict_dummy.
      match goal with
      | |- context [run ?s] =>
          by rewrite (interceptor_runs_passthrough cls attrs raw Hrun s eq_refl)
      end.
    + split; reflexivity.
Qed.

Lemma interceptor_raw cls attrs raw :
  default ∅ attrs !! "raw" = None →
  class_raw (interceptor_class cls attrs raw) = Some (default true raw).
Proof.
  intros H. unfold class_raw. by rewrite (interceptor_getattr _ _ _ _ H).
Qed.

(** Every registration made by [register], whatever the class and the
    classification, goes through the interceptor with [attrs] left out or
    binding [required_arguments] only. *)
Ltac interceptor_attrs :=
  first [ apply lookup_empty | reflexivity ].

(** C2: the [run] of every directive that [register] registers through the
    interceptor returns exactly one passthrough node around the parsed
    invocation, and runs no original expansion. *)
Theorem registered_directives_run_passthrough env reg0 reg name c :
  register env reg0 = Return () reg →
  _directives reg !! name = Some c →
  _directives reg0 !! name = Some c ∨
  ∀ self, d_class self = c → run self = Some ([directive self], []).
Proof.
  intros Hrun.
  cut (on_directives
         (entries_since (_directives reg0) (λ _ c, runs_passthrough c)) reg).
  { intros H. apply H. }
  eapply stable_Return; [| apply entries_since_refl | exact Hrun].
  unfold register. stable_split.
  all: apply stable_add_directive; intros m; apply entries_since_insert.
  all: apply interceptor_runs_passthrough; interceptor_attrs.
Qed.


Lemma registered_directives_run_passthrough_witness :
  let c := interceptor_class (Sample.host_directive "Note") None (Some false) in
  let self := {| d_class := c; d_name := "note"; d_arguments := [];
                 d_options := []; d_content := ["some *text*"]; d_lineno := 1;
                 d_content_offset := 0; d_block_text := ".. note:: some *text*" |} in
  _directives Sample.reg !! "note" = Some c ∧
  run self = Some ([directive self], []).
Proof.
  intros c self.
  assert (_directives Sample.reg !! "note" = Some c) as Hc
    by (vm_compute; reflexivity).
  split; [exact Hc |].
  destruct (registered_directives_run_passthrough
              Sample.env empty_registry Sample.reg "note" c sample_register Hc)
    as [H | H].
  - vm_compute in H. discriminate H.
  - apply H. reflexivity.
Defined.

(** C3: every directive that [register] registers through the interceptor
    carries the relaxed option schema: the host accepts the options of an
    invocation whatever their names, unchanged, and the passthrough node
    produced carries them as written. *)
Theorem registered_directives_accept_any_option env reg0 reg name c :
  register env reg0 = Return () reg →
  _directives reg !! name = Some c →
  _directives reg0 !! name = Some c ∨
  (class_getattr c "option_spec" = Some (VOptionSpec DummyOptionSpec) ∧
   ∀ inv, ∃ self,
     run_directive c inv = inr ([directive self], []) ∧
     d_class self = c ∧ d_options self = i_option_list inv).
Proof.
  intros Hrun.
  cut (on_directives
         (entries_since (_directives reg0) (λ _ c, options_relaxed c)) reg).
  { intros H. apply H. }
  eapply stable_Return; [| apply entries_since_refl | exact Hrun].
  unfold register. stable_split.
  all: apply stable_add_directive; intros m; apply entries_since_insert.
  all: apply interceptor_options_relaxed; interceptor_attrs.
Qed.

Lemma registered_directives_accept_any_option_witness :
  let c := interceptor_class (Sample.host_directive "Image") None (Some true) in
  let inv := {| i_name := "image"; i_arguments := ["logo.png"];
                i_option_list := [("unknown-opt", "value")]; i_content := [];
                i_lineno := 1; i_content_offset := 2;
                i_block_text := ".. image:: logo.png" |} in
  _directives Sample.reg !! "image" = Some c ∧
  parse_directive_options (Sample.host_directive "Image") (i_option_list inv)
    = inl (unknown_option "unknown-opt") ∧
  ∃ self, run_directive c inv = inr ([directive self], []) ∧
          d_options self = [("unknown-opt", "value")].
Proof.
  intros c inv.
  assert (_directives Sample.reg !! "image" = Some c) as Hc
    by (vm_compute; reflexivity).
  split; [exact Hc |]. split; [reflexivity |].
  destruct (registered_directives_accept_any_option
              Sample.env empty_registry Sample.reg "image" c sample_register Hc)
    as [H | [_ H]].
  - vm_compute in H. discriminate H.
  - destruct (H inv) as (self & Hself & _ & Hopts). exists self.
    split; [exact Hself | exact Hopts].
Defined.

(** ** The base grammar's directives and the [raw] flag *)

Lemma elem_of_autodoc_directive_names env d :
  d ∈ _subclasses (autodoc_Documenter env) →
  objtype (cls_data d) ≠ "object" →
  "auto" +:+ objtype (cls_data d) ∈ autodoc_directive_names env.
Proof.
  intros Hd Hne. unfold autodoc_directive_names, documenters.
  apply list_elem_of_fmap. exists (cls_data d). split; [done |].
  apply list_elem_of_filter. split; [done |].
  apply list_elem_of_fmap. eauto.
Qed.

(** A registration under a name that [name] is known to differ from. *)
Ltac other_name Hlater :=
  apply stable_add_directive; intros ?m; apply entry_at_insert;
  intros <-; exfalso; apply Hlater; unfold later_directive_names;
  rewrite !elem_of_app;
  first
    [ left; solve [repeat constructor]
    | right; right; solve [vm_compute; repeat constructor]
    | right; left; apply elem_of_autodoc_directive_names;
      [assumption | by eapply bool_decide_eq_true_1] ].

(** Right after the loop over the base grammar, whatever came before. *)
Lemma base_loop_raw env reg reg' name :
  for_each (_directive_registry env) (register_base_directive env) reg
    = Return () reg' →
  name ∈ base_directive_names env →
  name ∉ exclude_directives →
  ∃ c, _directives reg' !! name = Some c ∧
       class_raw c = Some (bool_decide (name ∉ non_raw_directives)).
Proof.
  intros Hloop Hbase Hexcl.
  apply list_elem_of_fmap in Hbase as ([n [module cls_name]] & -> & Hin).
  change (on_directives
            (entry_at n (λ c, class_raw c
                              = Some (bool_decide (n ∉ non_raw_directives))))
            reg').
  eapply for_each_establish; [exact Hin | | | exact Hloop].
  - intros ? ? H. unfold register_base_directive in H.
    rewrite bool_decide_eq_false_2 in H by done.
    step H as Himport. step H as Hgetattr.
    injection H as <-. apply entry_at_insert_here.
    by apply interceptor_raw.
  - intros [n' [module' cls_name']] _. stable_split.
    apply stable_add_directive. intros m. apply entry_at_insert. intros ->.
    by apply interceptor_raw.
Qed.

Lemma base_directive_raw env reg0 reg name :
  register env reg0 = Return () reg →
  name ∈ base_directive_names env →
  name ∉ exclude_directives →
  name ∉ later_directive_names env →
  ∃ c, _directives reg !! name = Some c ∧
       class_raw c = Some (bool_decide (name ∉ non_raw_directives)).
Proof.
  intros Hrun Hbase Hexcl Hlater. unfold register in Hrun.
  step Hrun as Hstandard. step Hrun as Hdownload. step Hrun as Hdomains.
  step Hrun as Hpy. step Hrun as Hrole. step Hrun as Hloop.
  change (on_directives
            (entry_at name (λ c, class_raw c
                                 = Some (bool_decide (name ∉ non_raw_directives))))
            reg).
  eapply stable_Return; [| | exact Hrun].
  { stable_split. all: other_name Hlater. }
  by eapply base_loop_raw.
Qed.

Lemma note_not_registered_later env :
  "note" ∉ later_directive_names env.
Proof.
  unfold later_directive_names. rewrite !elem_of_app. intros [H | [H | H]].
  - revert H. apply (bool_decide_unpack _). by vm_compute.
  - apply list_elem_of_fmap in H as (d & [=] & _).
  - revert H. apply (bool_decide_unpack _). by vm_compute.
Qed.

(** C4: a directive of the base grammar, other than the excluded ones, is
    registered with [raw] false exactly when its name is in the non-raw set,
    provided none of the later steps registers that name again; the
    directive registered under [note] has [raw] false. *)
Theorem base_grammar_raw_flag env reg0 reg :
  register env reg0 = Return () reg →
  (∀ name,
     name ∈ base_directive_names env →
     name ∉ exclude_directives →
     name ∉ later_directive_names env →
     ∃ c, _directives reg !! name = Some c ∧
          class_raw c = Some (bool_decide (name ∉ non_raw_directives)))
  ∧ ("note" ∈ base_directive_names env →
     ∃ c, _directives reg !! "note" = Some c ∧ class_raw c = Some false).
Proof.
  intros Hrun. split.
  - intros name. by apply base_directive_raw with reg0.
  - intros Hnote.
    apply (base_directive_raw env reg0 reg "note" Hrun Hnote);
      [| apply note_not_registered_later].
    apply (bool_decide_unpack _). by vm_compute.
Qed.

Lemma base_grammar_raw_flag_witness :
  (∃ c, _directives Sample.reg !! "image" = Some c ∧ class_raw c = Some true) ∧
  (∃ c, _directives Sample.reg !! "note" = Some c ∧ class_raw c = Some false).
Proof.
  destruct (base_grammar_raw_flag Sample.env empty_registry Sample.reg
              sample_register) as [Hany Hnote].
  split.
  - apply (Hany "image").
    + vm_compute. repeat constructor.
    + apply (bool_decide_unpack _). by vm_compute.
    + apply (bool_decide_unpack _). by vm_compute.
  - apply Hnote. vm_compute. repeat constructor.
Defined.

(** ** Registrations without a classification *)

Lemma has_colon_separator prefix name : has_colon (prefix +:+ ":" +:+ name) = true.
Proof.
  induction prefix as [| a s IH]; simpl.
  - reflexivity.
  - rewrite IH. apply orb_true_r.
Qed.

Lemma has_colon_qualified domain name : has_colon (qualified domain name) = true.
Proof. apply has_colon_separator. Qed.

Lemma non_raw_directives_no_colon name :
  name ∈ non_raw_directives → has_colon name = false.
Proof.
  unfold non_raw_directives. rewrite elem_of_list_to_set. intros H.
  repeat (apply elem_of_cons in H as [-> | H]; [reflexivity |]).
  by apply elem_of_nil in H.
Qed.

Lemma register_domain_directive Q domain name cls reg reg' :
  (name, cls) ∈ domain_directives domain →
  (∀ cls, Q (interceptor_class cls None None)) →
  register_domain domain reg = Return () reg' →
  on_directives (entry_at (qualified domain name) Q) reg'.
Proof.
  intros Hin HQ Hrun. unfold register_domain in Hrun. step Hrun as Hroles.
  eapply for_each_establish; [exact Hin | | | exact Hrun].
  - intros ? ? H. injection H as <-. by apply entry_at_insert_here.
  - intros [n c] _. apply stable_add_directive. intros m.
    by apply entry_at_insert.
Qed.

(** Where the domain walk leaves a directive of a discovered domain. *)
Lemma domain_walk_directive Q env reg0 reg domain name cls :
  domain ∈ domains env →
  (name, cls) ∈ domain_directives domain →
  (∀ cls, Q (interceptor_class cls None None)) →
  for_each (_subclasses (sphinx_domains_Domain env))
    (λ domain, register_domain (cls_data domain)) reg0 = Return () reg →
  on_directives (entry_at (qualified domain name) Q) reg.
Proof.
  intros (t & Ht & <-)%elem_of_domains Hin HQ Hrun.
  eapply for_each_establish; [exact Ht | | | exact Hrun].
  - intros ? ?. by apply register_domain_directive with cls.
  - intros y _. stable_split.
    apply stable_add_directive. intros m. by apply entry_at_insert.
Qed.

Lemma domain_directive_raw env reg0 reg domain name cls :
  register env reg0 = Return () reg →
  domain ∈ domains env →
  (name, cls) ∈ domain_directives domain →
  qualified domain name ∉ autodoc_directive_names env →
  ∃ c, _directives reg !! qualified domain name = Some c ∧
       class_raw c = Some true.
Proof.
  intros Hrun Hdom Hin Hauto. unfold register in Hrun.
  step Hrun as Hstandard. step Hrun as Hdownload. step Hrun as Hdomains.
  change (on_directives
            (entry_at (qualified domain name) (λ c, class_raw c = Some true)) reg).
  eapply stable_Return; [| | exact Hrun].
  - stable_split.
    all: apply stable_add_directive; intros m; apply entry_at_insert; intros Heq.
    all: first
      [ by apply interceptor_raw
      | apply (f_equal has_colon) in Heq;
        rewrite has_colon_qualified in Heq; discriminate Heq
      | exfalso; apply Hauto; rewrite <- Heq;
        apply elem_of_autodoc_directive_names;
        [assumption | by eapply bool_decide_eq_true_1]
      | rewrite interceptor_raw by reflexivity; simpl; f_equal;
        apply bool_decide_eq_true_2; intros Hnr%non_raw_directives_no_colon;
        rewrite Heq, has_colon_qualified in Hnr; discriminate Hnr ].
  - eapply domain_walk_directive; [done | done | | exact Hdomains].
    intros ?. by apply interceptor_raw.
Qed.

Lemma add_optional_directive_present env directive_name directive_cls
    importlib_name module cls reg reg' :
  importable env !! importlib_name = Some module →
  module !! directive_cls = Some cls →
  _add_optional_directive env directive_name directive_cls importlib_name reg
    = Return () reg' →
  _directives reg' = <[directive_name := interceptor_class cls None None]> (_directives reg).
Proof.
  intros Himport Hcls.
  unfold _add_optional_directive, try_except_ImportError, import_module.
  rewrite Himport. simpl. rewrite Hcls. by intros [= <-].
Qed.

(** The registration a probe makes, when its class is found, stays. *)
Lemma probe_registered env reg0 reg directive_name directive_cls importlib_name
    module cls :
  register env reg0 = Return () reg →
  (directive_name, directive_cls, importlib_name) ∈ optional_probes →
  importable env !! importlib_name = Some module →
  module !! directive_cls = Some cls →
  _directives reg !! directive_name = Some (interceptor_class cls None None).
Proof.
  intros Hrun Hprobe Himport Hcls.
  cut (on_directives
         (entry_at directive_name (λ c, c = interceptor_class cls None None)) reg).
  { by intros (c & Hc & ->). }
  unfold register in Hrun. do 18 step Hrun.
  unfold optional_probes in Hprobe.
  repeat (apply elem_of_cons in Hprobe as [[= -> -> ->] | Hprobe];
    [ repeat
        lazymatch type of Hrun with
        | (_add_optional_directive _ ?n _ _ ≫= _) _ = _ =>
            let Hp := fresh "Hp" in
            step Hrun as Hp;
            try (apply (add_optional_directive_present _ _ _ _ _ _ _ _ Himport Hcls)
                   in Hp;
                 eapply stable_Return; [| | exact Hrun];
                 [ stable_split;
                   apply stable_add_directive; intros m; apply entry_at_insert;
                   intros Heq; discriminate Heq
                 | unfold on_directives; rewrite Hp;
                   by apply entry_at_insert_here ])
        end;
      try (apply (add_optional_directive_present _ _ _ _ _ _ _ _ Himport Hcls)
             in Hrun;
           unfold on_directives; rewrite Hrun; by apply entry_at_insert_here)
    |]).
  by apply elem_of_nil in Hprobe.
Qed.

(** A directive registered with [raw] false got an explicit classification
    that says so. *)
Lemma non_raw_is_classified env reg0 reg name c :
  register env reg0 = Return () reg →
  _directives reg !! name = Some c →
  _directives reg0 !! name = Some c ∨
  class_raw c = Some true ∨
  explicitly_non_raw env name.
Proof.
  intros Hrun.
  cut (on_directives
         (entries_since (_directives reg0)
            (λ name c, class_raw c = Some true ∨ explicitly_non_raw env name))
         reg).
  { intros H. apply H. }
  eapply stable_Return; [| apply entries_since_refl | exact Hrun].
  unfold register. stable_split.
  all: apply stable_add_directive; intros m; apply entries_since_insert.
  all: unfold explicitly_non_raw.
  all: first
    [ left; by apply interceptor_raw
    | right; right; left; reflexivity
    | right; right; right; left; apply elem_of_autodoc_directive_names;
      [assumption | by eapply bool_decide_eq_true_1]
    | right; right; right; right; solve [repeat constructor]
    | rewrite interceptor_raw by reflexivity;
      match goal with
      | |- context [bool_decide (?n ∉ non_raw_directives)] =>
          destruct (decide (n ∈ non_raw_directives)) as [Hnr | Hnr];
          [ right; left; split; [| exact Hnr];
            apply list_elem_of_fmap; eexists (_, (_, _));
            split; [reflexivity | eassumption]
          | left; by rewrite (bool_decide_eq_true_2 _ Hnr) ]
      end ].
Qed.

Lemma sample_register_blockdiag :
  register Sample.env_blockdiag empty_registry
    = Return () (Sample.registry Sample.env_blockdiag).
Proof.
  apply (returned_registry (register Sample.env_blockdiag empty_registry)).
  vm_compute. exact I.
Defined.

(** ** The domain walk: what is registered and what is not *)

Lemma domain_directive_passthrough env reg0 reg domain name cls :
  register env reg0 = Return () reg →
  domain ∈ domains env →
  (name, cls) ∈ domain_directives domain →
  ∃ c, _directives reg !! qualified domain name = Some c ∧ runs_passthrough c.
Proof.
  intros Hrun Hdom Hin. unfold register in Hrun.
  step Hrun as Hstandard. step Hrun as Hdownload. step Hrun as Hdomains.
  change (on_directives (entry_at (qualified domain name) runs_passthrough) reg).
  eapply stable_Return; [| | exact Hrun].
  - stable_split.
    all: apply stable_add_directive; intros m; apply entry_at_insert; intros _.
    all: apply interceptor_runs_passthrough; interceptor_attrs.
  - eapply domain_walk_directive; [done | done | | exact Hdomains].
    intros ?. by apply interceptor_runs_passthrough.
Qed.

Lemma roles_registered_only env reg0 reg name f :
  register env reg0 = Return () reg →
  _role_registry reg !! name = Some f →
  _role_registry reg0 !! name = Some f ∨ registered_role env name f.
Proof.
  intros Hrun.
  cut (on_roles (entries_since (_role_registry reg0) (registered_role env)) reg).
  { intros H. apply H. }
  eapply stable_Return; [| apply entries_since_refl | exact Hrun].
  unfold register. stable_split.
  all: apply stable_register_role; intros m; apply entries_since_insert.
  all: first
    [ left; split; [reflexivity | assumption]
    | right; split; [reflexivity |];
      first
        [ left; reflexivity
        | right; left; assumption
        | right; right; eexists _, _, _;
          split; [apply list_elem_of_fmap; eauto |];
          split; [eassumption |]; split; [eassumption |];
          first [left; reflexivity | right; reflexivity] ] ].
Qed.

(** C1, as the code has it: after [register], every directive of a
    discovered domain has a passthrough registration under its qualified
    name, and every role of a discovered domain whose callable is a
    reference role has the reference-role wrapper under its bare and its
    qualified name; the roles registered are no others than the standard
    ones, [download], those of esp_docs and these reference roles. *)
Theorem domain_catalog_registered env reg0 reg :
  register env reg0 = Return () reg →
  (∀ domain name cls,
     domain ∈ domains env → (name, cls) ∈ domain_directives domain →
     ∃ c, _directives reg !! (domain_name domain +:+ ":" +:+ name) = Some c ∧
          ∀ self, d_class self = c → run self = Some ([directive self], []))
  ∧ (∀ domain name role_callable,
       domain ∈ domains env → (name, role_callable) ∈ domain_roles domain →
       isinstance_ReferenceRole role_callable = true →
       _role_registry reg !! name = Some ReferenceRole_new ∧
       _role_registry reg !! (domain_name domain +:+ ":" +:+ name)
         = Some ReferenceRole_new)
  ∧ (∀ name f,
       _role_registry reg !! name = Some f →
       _role_registry reg0 !! name = Some f ∨ registered_role env name f).
Proof.
  intros Hrun. split; [| split].
  - intros domain name cls. by apply domain_directive_passthrough with reg0.
  - intros domain name role_callable Hdom Hin Hinst.
    split; eapply register_reference_role; eauto.
  - intros name f. by apply roles_registered_only.
Qed.

Lemma domain_catalog_registered_witness :
  (∃ c, _directives Sample.reg !! "c:function" = Some c ∧
        ∀ self, d_class self = c → run self = Some ([directive self], [])) ∧
  _role_registry Sample.reg !! "func" = Some ReferenceRole_new ∧
  _role_registry Sample.reg !! "c:func" = Some ReferenceRole_new.
Proof.
  destruct (domain_catalog_registered Sample.env empty_registry Sample.reg
              sample_register) as (Hdirective & Hrole & _).
  split.
  - apply (Hdirective Sample.CDomain "function" (Sample.host_directive "CFunctionObject")).
    + vm_compute. left.
    + left.
  - apply (Hrole Sample.CDomain "func" Sample.XRefRole).
    + vm_compute. left.
    + left.
    + reflexivity.
Defined.

(** C1 as stated fails for the roles: the [expr] role of the C domain is
    cataloged by the walker, its callable is not a reference role, and
    [register] leaves it without any registration, bare or qualified. *)
Lemma non_reference_domain_role_not_registered :
  Sample.CDomain ∈ domains Sample.env ∧
  ("expr", Sample.CExprRole) ∈ domain_roles Sample.CDomain ∧
  isinstance_ReferenceRole Sample.CExprRole = false ∧
  register Sample.env empty_registry = Return () Sample.reg ∧
  _role_registry Sample.reg !! "expr" = None ∧
  _role_registry Sample.reg !! "c:expr" = None.
Proof.
  split; [vm_compute; left |].
  split; [right; left |].
  split; [reflexivity |].
  split; [exact sample_register |].
  split; by vm_compute.
Qed.

(** ** The [role] directive *)

Lemma role_directive_registered env reg0 reg :
  register env reg0 = Return () reg →
  _directives reg !! "role"
    = Some (interceptor_class (Directive env)
              (Some {[ "required_arguments" := VInt 1 ]}) None).
Proof.
  intros Hrun.
  cut (on_directives
         (entry_at "role"
            (λ c, c = interceptor_class (Directive env)
                        (Some {[ "required_arguments" := VInt 1 ]}) None)) reg).
  { by intros (c & Hc & ->). }
  unfold register in Hrun.
  step Hrun as Hstandard. step Hrun as Hdownload. step Hrun as Hdomains.
  step Hrun as Hpy. step Hrun as Hrole.
  eapply stable_Return; [| | exact Hrun].
  - stable_split.
    all: apply stable_add_directive; intros m; apply entry_at_insert; intros Heq.
    all: first
      [ discriminate Heq
      | subst; match goal with
               | H : bool_decide (_ ∈ exclude_directives) = false |- _ =>
                   by vm_compute in H
               end ].
  - injection Hrole as <-. by apply entry_at_insert_here.
Qed.

(** C8, as the code has it: whatever the base grammar says about [role],
    the directive registered under that name is the one the generic
    interceptor builds on the host's base [Directive] class with
    [required_arguments] overridden to 1: one argument is declared, the option
    schema is the relaxed one, [run] is the generic passthrough and [raw] is
    true. *)
Theorem role_directive_interceptor env reg0 reg :
  register env reg0 = Return () reg →
  ∃ c,
    _directives reg !! "role" = Some c ∧
    c = interceptor_class (Directive env)
          (Some {[ "required_arguments" := VInt 1 ]}) None ∧
    class_getattr c "required_arguments" = Some (VInt 1) ∧
    class_getattr c "option_spec" = Some (VOptionSpec DummyOptionSpec) ∧
    class_getattr c "run" = Some (VMethod passthrough_run) ∧
    class_raw c = Some true ∧
    ∀ self, d_class self = c → run self = Some ([directive self], []).
Proof.
  intros Hrun. eexists. split; [by eapply role_directive_registered |].
  split; [reflexivity |].
  split; [reflexivity |].
  split; [by rewrite interceptor_getattr |].
  split; [by rewrite interceptor_getattr |].
  split; [by apply interceptor_raw |].
  by apply interceptor_runs_passthrough.
Qed.

Lemma role_directive_interceptor_witness :
  ∃ c, _directives Sample.reg !! "role" = Some c ∧
       class_getattr c "required_arguments" = Some (VInt 1) ∧
       class_getattr c "run" = Some (VMethod passthrough_run).
Proof.
  destruct (role_directive_interceptor Sample.env empty_registry Sample.reg
              sample_register) as (c & Hc & _ & Hargs & _ & Hrun & _).
  exists c. split; [exact Hc |]. split; [exact Hargs | exact Hrun].
Defined.

(** C8 as stated fails on the pre-parsing: the class registered under
    [role] is built by the generic interceptor, its [run] is the generic
    passthrough, and an invocation whose argument is still in its content
    comes back as it is, with no argument taken out of the content. *)
Lemma role_interceptor_has_no_preparsing :
  let c := interceptor_class (Directive Sample.env)
             (Some {[ "required_arguments" := VInt 1 ]}) None in
  let inv := {| i_name := "role"; i_arguments := []; i_option_list := [];
                i_content := ["custom(emphasis)"]; i_lineno := 1;
                i_content_offset := 1; i_block_text := ".. role::" |} in
  register Sample.env empty_registry = Return () Sample.reg ∧
  _directives Sample.reg !! "role" = Some c ∧
  class_getattr c "run" = Some (VMethod passthrough_run) ∧
  run_directive c inv
    = inr ([directive {| d_class := c; d_name := "role"; d_arguments := [];
                         d_options := []; d_content := ["custom(emphasis)"];
                         d_lineno := 1; d_content_offset := 1;
                         d_block_text := ".. role::" |}], []).
Proof.
  intros c inv.
  split; [exact sample_register |].
  split; [by vm_compute |].
  split; by vm_compute.
Qed.

(** ** Optional packages *)

Lemma stable_noop {A} E (m : M A) a :
  (∀ reg, m reg = Return a reg) → stable E m.
Proof. intros H reg HE. by rewrite H. Qed.

Lemma import_errors_only_Forall env p :
  import_errors_only env p →
  Forall (λ '(name, _), importable env !! name = None →
                        ∃ n, import_failure env name = ImportError n)
    (package_requires p).
Proof.
  intros H. apply Forall_forall. intros [name cls]. apply H.
Qed.

(** Goes through the imports and the class lookups of a block, where every
    import that fails is known to fail with [ImportError]. *)
Ltac through_imports :=
  repeat match goal with
         | |- context [match importable ?env !! ?k with Some _ => _ | None => _ end] =>
             let E := fresh "E" in
             destruct (importable env !! k) eqn:E; cbv beta iota;
             [| match goal with
                | Hi : _ → ∃ n, import_failure env k = ImportError n |- _ =>
                    let n := fresh "n" in
                    let Hn := fresh "Hn" in
                    destruct (Hi ltac:(first [reflexivity | exact E])) as [n Hn];
                    rewrite Hn; cbv beta iota
                end ]
         | |- context [match ?x !! ?k with Some _ => _ | None => _ end] =>
             destruct (x !! k); cbv beta iota
         end.

(** The block of a package that is not there, or whose class is not there
    where the block looks for it with care, does nothing. *)
Lemma package_block_absent env p reg :
  import_errors_only env p →
  module_missing env p ∨ (skips_missing_class p = true ∧ class_missing env p) →
  package_block env p reg = Return () reg.
Proof.
  intros Hquiet%import_errors_only_Forall
         [(name & cls & Hin & Hmissing) |
          [Hskip (name & cls & module & Hin & Himport & Hcls)]].
  - destruct p; simpl in Hin, Hquiet;
      repeat (apply Forall_cons in Hquiet as [? Hquiet]);
      repeat (apply elem_of_cons in Hin as [[= -> ->] | Hin]);
      try (by apply elem_of_nil in Hin); simpl.
    all: unfold register_sphinx_tabs, register_sphinx_click, register_sphinxarg,
           register_esp_docs, _add_optional_directive, try_except_ImportError,
           from_import, import_module, mbind, M_bind, mret, M_ret, raise.
    all: through_imports; try reflexivity; congruence.
  - destruct p; try discriminate Hskip; simpl in Hin, Hquiet;
      repeat (apply Forall_cons in Hquiet as [? Hquiet]);
      repeat (apply elem_of_cons in Hin as [[= -> ->] | Hin]);
      try (by apply elem_of_nil in Hin); simpl.
    all: unfold register_esp_docs, _add_optional_directive, try_except_ImportError,
           from_import, import_module, mbind, M_bind, mret, M_ret, raise.
    all: rewrite ?Himport; cbv beta iota; rewrite ?Hcls; try reflexivity.
    all: through_imports; try reflexivity; congruence.
Qed.

(** Closes [stable] for the block of the package [p], known to be absent. *)
Ltac absent_block env p Hquiet Habsent :=
  idtac;
  lazymatch goal with
  | |- stable _ ?m =>
      let b := eval cbv [package_block] in (package_block env p) in
      constr_eq m b;
      apply (stable_noop _ _ ()); intros ?;
      apply (package_block_absent env p); [exact Hquiet | exact Habsent]
  end.

(** A registration under a name other than the literal name watched. *)
Ltac other_directive Hpy Hbase :=
  apply stable_add_directive; intros ?m; apply entry_kept_insert; intros Heq;
  first
    [ discriminate Heq
    | simpl in Heq; discriminate Heq
    | apply (f_equal has_colon) in Heq; rewrite has_colon_separator in Heq;
      vm_compute in Heq; discriminate Heq
    | apply Hpy; rewrite <- Heq; apply list_elem_of_fmap;
      eexists (_, _); split; [reflexivity | eassumption]
    | apply Hbase; rewrite <- Heq; apply list_elem_of_fmap;
      eexists (_, (_, _)); split; [reflexivity | eassumption] ].

Lemma absent_package_directive_kept env reg0 reg p n :
  register env reg0 = Return () reg →
  p ∈ optional_packages →
  import_errors_only env p →
  module_missing env p ∨ (skips_missing_class p = true ∧ class_missing env p) →
  n ∈ package_directives p →
  n ∉ (domain_directives (PythonDomain env)).*1 →
  n ∉ base_directive_names env →
  _directives reg !! n = _directives reg0 !! n.
Proof.
  intros Hrun Hp Hquiet Habsent Hn Hpy Hbase.
  change (on_directives (entry_kept (_directives reg0) n) reg).
  eapply stable_Return; [| | exact Hrun]; [| reflexivity].
  unfold register.
  unfold optional_packages, optional_probes in Hp. simpl in Hp.
  repeat (apply elem_of_cons in Hp as [-> | Hp]);
    try (by apply elem_of_nil in Hp); simpl in Hn;
    repeat (apply elem_of_cons in Hn as [-> | Hn]);
    try (by apply elem_of_nil in Hn).
  all: match type of Habsent with
       | module_missing _ ?p ∨ _ =>
           stable_split_with ltac:(absent_block env p Hquiet Habsent)
       end.
  all: other_directive Hpy Hbase.
Qed.

Lemma absent_package_role_kept env reg0 reg p n :
  register env reg0 = Return () reg →
  p ∈ optional_packages →
  import_errors_only env p →
  module_missing env p ∨ (skips_missing_class p = true ∧ class_missing env p) →
  n ∈ package_roles p →
  (∀ domain name role_callable,
     domain ∈ domains env → (name, role_callable) ∈ domain_roles domain →
     isinstance_ReferenceRole role_callable = true → n ≠ name) →
  _role_registry reg !! n = _role_registry reg0 !! n.
Proof.
  intros Hrun Hp Hquiet Habsent Hn Hdomains.
  change (on_roles (entry_kept (_role_registry reg0) n) reg).
  eapply stable_Return; [| | exact Hrun]; [| reflexivity].
  unfold register.
  unfold optional_packages, optional_probes in Hp. simpl in Hp.
  repeat (apply elem_of_cons in Hp as [-> | Hp]);
    try (by apply elem_of_nil in Hp); simpl in Hn;
    try (by apply elem_of_nil in Hn).
  unfold esp_docs_roles in Hn.
  repeat (apply elem_of_cons in Hn as [-> | Hn]);
    try (by apply elem_of_nil in Hn).
  all: stable_split_with ltac:(absent_block env esp_docs Hquiet Habsent).
  all: apply stable_register_role; intros m; apply entry_kept_insert; intros Heq.
  all: first
    [ discriminate Heq
    | apply (f_equal has_colon) in Heq; rewrite has_colon_separator in Heq;
      vm_compute in Heq; discriminate Heq
    | match goal with
      | H : _ ∈ standard_roles |- _ =>
          rewrite Heq in H; revert H; apply (bool_decide_unpack _); by vm_compute
      end
    | eapply Hdomains;
      [apply list_elem_of_fmap; eauto | eassumption | eassumption | by symmetry] ].
Qed.

(** Runs a block whose imports and class lookups are known to succeed. *)
Ltac run_block H :=
  unfold package_block, register_sphinx_tabs, register_sphinx_click,
    register_sphinxarg, register_esp_docs, _add_optional_directive,
    try_except_ImportError, from_import, import_module, getattr, esp_docs_roles,
    mbind, M_bind, mret, M_ret in H;
  repeat match goal with
         | Hx : _ !! _ = Some _ |- _ => rewrite Hx in H; cbv beta iota zeta in H
         end;
  cbv [for_each mbind M_bind mret M_ret register_canonical_role _add_directive
       register_directive _directives _role_registry] in H;
  injection H as <-.

Ltac entry_at_inserted tac :=
  cbv [_directives _role_registry on_directives on_roles];
  repeat first
    [ apply entry_at_insert_here; tac
    | apply entry_at_insert; [intros _; tac |] ].

Lemma available_Forall env p :
  available env p →
  Forall (λ '(name, cls), ∃ module c,
            importable env !! name = Some module ∧ module !! cls = Some c)
    (package_requires p).
Proof.
  intros H. apply Forall_forall. intros [name cls]. apply H.
Qed.

Lemma package_block_available env p reg reg' :
  p ∈ optional_packages →
  available env p →
  package_block env p reg = Return () reg' →
  (∀ n, n ∈ package_directives p →
        on_directives (entry_at n runs_passthrough) reg') ∧
  (∀ n, n ∈ package_roles p →
        on_roles (entry_at n (λ f, f = ReferenceRole_new)) reg').
Proof.
  intros Hp Havailable%available_Forall Hblock.
  unfold optional_packages, optional_probes in Hp. simpl in Hp.
  repeat (apply elem_of_cons in Hp as [-> | Hp]);
    try (by apply elem_of_nil in Hp).
  all: simpl in Havailable;
       repeat (apply Forall_cons in Havailable
                 as [(? & ? & ? & ?) Havailable]);
       repeat match goal with
              | H1 : ?x = Some ?a, H2 : ?x = Some ?b |- _ =>
                  rewrite H1 in H2; injection H2 as <-
              end.
  all: clear Havailable; run_block Hblock.
  all: split; intros n Hn; simpl in Hn;
       repeat (apply elem_of_cons in Hn as [-> | Hn]);
       try (by apply elem_of_nil in Hn).
  all: entry_at_inserted ltac:(first [ reflexivity
                                     | by apply interceptor_runs_passthrough ]).
Qed.

(** Steps through a run up to the block [b]: [Hblock] is then the run of
    the block and [Hrun] the run of what follows it, if anything does. *)
Ltac locate_block b Hrun Hblock :=
  lazymatch type of Hrun with
  | (?m ≫= _) _ = _ =>
      tryif constr_eq m b then step Hrun as Hblock
      else (let Hs := fresh "Hs" in
            step Hrun as Hs; clear Hs; locate_block b Hrun Hblock)
  | ?m _ = _ => constr_eq m b; pose proof Hrun as Hblock
  end.

Ltac passthrough_leaf :=
  first
    [ apply stable_add_directive; intros ?m; apply entry_at_insert; intros _;
      apply interceptor_runs_passthrough; interceptor_attrs
    | apply stable_register_role; intros ?m; apply entry_at_insert; intros _;
      reflexivity ].

Lemma available_package_registered env reg0 reg p :
  register env reg0 = Return () reg →
  p ∈ optional_packages →
  available env p →
  (∀ n, n ∈ package_directives p →
        ∃ c, _directives reg !! n = Some c ∧ runs_passthrough c) ∧
  (∀ n, n ∈ package_roles p → _role_registry reg !! n = Some ReferenceRole_new).
Proof.
  intros Hrun Hp Havailable.
  cut ((∀ n, n ∈ package_directives p →
             on_directives (entry_at n runs_passthrough) reg) ∧
       (∀ n, n ∈ package_roles p →
             on_roles (entry_at n (λ f, f = ReferenceRole_new)) reg)).
  { intros [Hd Hr]. split; intros n Hn; [by apply Hd |].
    by destruct (Hr n Hn) as (f & Hf & ->). }
  pose proof Hp as Hp'.
  unfold register in Hrun. do 14 step Hrun.
  unfold optional_packages, optional_probes in Hp. simpl in Hp.
  repeat (apply elem_of_cons in Hp as [-> | Hp]);
    try (by apply elem_of_nil in Hp).
  all: match type of Havailable with
       | available _ ?p =>
           let b := eval cbv [package_block] in (package_block env p) in
           locate_block b Hrun Hblock
       end.
  all: apply (package_block_available _ _ _ _ Hp' Havailable) in Hblock
         as [Hd Hr].
  all: split; intros n Hn; [specialize (Hd n Hn) | specialize (Hr n Hn)].
  all: first
         [ assumption
         | eapply stable_Return; [| eassumption | exact Hrun];
           stable_split; passthrough_leaf ].
Qed.

(** *** The registrations made without a classification *)

Lemma package_block_unclassified env p reg reg' :
  p ∈ optional_packages →
  available env p →
  package_block env p reg = Return () reg' →
  ∀ n, n ∈ package_unclassified p →
       on_directives (entry_at n (λ c, class_raw c = Some true)) reg'.
Proof.
  intros Hp Havailable%available_Forall Hblock.
  unfold optional_packages, optional_probes in Hp. simpl in Hp.
  repeat (apply elem_of_cons in Hp as [-> | Hp]);
    try (by apply elem_of_nil in Hp).
  all: simpl in Havailable;
       repeat (apply Forall_cons in Havailable
                 as [(? & ? & ? & ?) Havailable]);
       repeat match goal with
              | H1 : ?x = Some ?a, H2 : ?x = Some ?b |- _ =>
                  rewrite H1 in H2; injection H2 as <-
              end.
  all: clear Havailable; run_block Hblock.
  all: intros n Hn; simpl in Hn;
       repeat (apply elem_of_cons in Hn as [-> | Hn]);
       try (by apply elem_of_nil in Hn).
  all: entry_at_inserted ltac:(by apply interceptor_raw).
Qed.

(** A directive that the block of an available package registers without a
    classification is raw in the end. *)
Lemma unclassified_package_directive_raw env reg0 reg p n :
  register env reg0 = Return () reg →
  p ∈ optional_packages →
  available env p →
  n ∈ package_unclassified p →
  ∃ c, _directives reg !! n = Some c ∧ class_raw c = Some true.
Proof.
  intros Hrun Hp Havailable Hn.
  change (on_directives (entry_at n (λ c, class_raw c = Some true)) reg).
  pose proof Hp as Hp'.
  unfold register in Hrun. do 14 step Hrun.
  unfold optional_packages, optional_probes in Hp. simpl in Hp.
  repeat (apply elem_of_cons in Hp as [-> | Hp]);
    try (by apply elem_of_nil in Hp).
  all: match type of Havailable with
       | available _ ?p =>
           let b := eval cbv [package_block] in (package_block env p) in
           locate_block b Hrun Hblock
       end.
  all: pose proof (package_block_unclassified _ _ _ _ Hp' Havailable Hblock n Hn)
         as Hraw.
  all: first
         [ assumption
         | eapply stable_Return; [| exact Hraw | exact Hrun];
           stable_split;
           apply stable_add_directive; intros m; apply entry_at_insert;
           intros _; by apply interceptor_raw ].
Qed.

(** C9: a directive registered without a classification has [raw] true:
    every domain-qualified directive (if autodoc does not register that
    name); every directive a probe of an optional package registers; every
    directive that the block of an available optional package registers
    without a classification, [code-tab] among them; and in the end every
    registered directive is raw, unless it was registered with an explicit
    classification that says otherwise. *)
Theorem unclassified_directives_raw env reg0 reg :
  register env reg0 = Return () reg →
  (∀ domain name cls,
     domain ∈ domains env →
     (name, cls) ∈ domain_directives domain →
     domain_name domain +:+ ":" +:+ name ∉ autodoc_directive_names env →
     ∃ c, _directives reg !! (domain_name domain +:+ ":" +:+ name) = Some c ∧
          class_raw c = Some true)
  ∧ (∀ directive_name directive_cls importlib_name module cls,
       (directive_name, directive_cls, importlib_name) ∈ optional_probes →
       importable env !! importlib_name = Some module →
       module !! directive_cls = Some cls →
       ∃ c, _directives reg !! directive_name = Some c ∧ class_raw c = Some true)
  ∧ (∀ p name,
       p ∈ optional_packages →
       available env p →
       name ∈ package_unclassified p →
       ∃ c, _directives reg !! name = Some c ∧ class_raw c = Some true)
  ∧ (∀ name c,
       _directives reg !! name = Some c →
       _directives reg0 !! name = Some c ∨
       class_raw c = Some true ∨
       explicitly_non_raw env name).
Proof.
  intros Hrun. split; [| split; [| split]].
  - intros domain name cls. by apply domain_directive_raw with reg0.
  - intros dn dc mn module cls Hprobe Himport Hcls.
    exists (interceptor_class cls None None). split.
    + by apply (probe_registered env reg0 reg dn dc mn module cls).
    + by apply interceptor_raw.
  - intros p name. by apply (unclassified_package_directive_raw env reg0 reg p name).
  - intros name c. by apply non_raw_is_classified.
Qed.

Lemma sample_register_tabs :
  register Sample.env_tabs empty_registry
    = Return () (Sample.registry Sample.env_tabs).
Proof.
  apply (returned_registry (register Sample.env_tabs empty_registry)).
  vm_compute. exact I.
Qed.

Lemma unclassified_directives_raw_witness :
  (∃ c, _directives (Sample.registry Sample.env_blockdiag) !! "c:function" = Some c ∧
        class_raw c = Some true) ∧
  (∃ c, _directives (Sample.registry Sample.env_blockdiag) !! "blockdiag" = Some c ∧
        class_raw c = Some true) ∧
  (∃ c, _directives (Sample.registry Sample.env_tabs) !! "code-tab" = Some c ∧
        class_raw c = Some true).
Proof.
  destruct (unclassified_directives_raw Sample.env_blockdiag empty_registry
              (Sample.registry Sample.env_blockdiag) sample_register_blockdiag)
    as (Hdomain & Hprobe & _ & _).
  destruct (unclassified_directives_raw Sample.env_tabs empty_registry
              (Sample.registry Sample.env_tabs) sample_register_tabs)
    as (_ & _ & Hpackage & _).
  split; [| split].
  - apply (Hdomain Sample.CDomain "function" (Sample.host_directive "CFunctionObject")).
    + vm_compute. left.
    + left.
    + apply (bool_decide_unpack _). vm_compute. exact I.
  - apply (Hprobe "blockdiag" "Blockdiag" "sphinxcontrib.blockdiag"
             {[ "Blockdiag" := Sample.host_directive "Blockdiag" ]}
             (Sample.host_directive "Blockdiag")).
    + left.
    + vm_compute. reflexivity.
    + vm_compute. reflexivity.
  - apply (Hpackage sphinx_tabs "code-tab").
    + vm_compute. left.
    + intros name cls Hin. exists Sample.tabs_module, (Sample.host_directive cls).
      simpl in Hin.
      repeat (apply elem_of_cons in Hin as [[= -> ->] | Hin]);
        [split; reflexivity .. | by apply elem_of_nil in Hin].
    + left.
Defined.

(** *** [register] returns *)

Lemma returns_ret {A} (a : A) : returns (mret a).
Proof. intros reg. by eexists _, _. Qed.

Lemma returns_bind {A B} (m : M A) (f : A → M B) :
  returns m → (∀ a, returns (f a)) → returns (m ≫= f).
Proof.
  intros Hm Hf reg. destruct (Hm reg) as (a & r & Ha).
  destruct (Hf a r) as (b & r' & Hb). exists b, r'.
  unfold mbind, M_bind. by rewrite Ha.
Qed.

Lemma returns_for_each {A} (l : list A) (body : A → M unit) :
  (∀ x, x ∈ l → returns (body x)) → returns (for_each l body).
Proof.
  induction l as [| x l IH]; intros H; simpl.
  - apply returns_ret.
  - apply returns_bind; [apply H; left | intros _; apply IH].
    intros y Hy. apply H. by right.
Qed.

Lemma returns_add_directive name cls attrs raw :
  returns (_add_directive name cls attrs raw).
Proof. intros reg. by eexists _, _. Qed.

Lemma returns_register_canonical_role name role_fn :
  returns (register_canonical_role name role_fn).
Proof. intros reg. by eexists _, _. Qed.

Lemma returns_register_domain domain : returns (register_domain domain).
Proof.
  unfold register_domain. apply returns_bind; [| intros _].
  - apply returns_for_each. intros [name role_callable] _.
    destruct (isinstance_ReferenceRole role_callable); [| apply returns_ret].
    apply returns_bind; [| intros _]; apply returns_register_canonical_role.
  - apply returns_for_each. intros [name cls] _. apply returns_add_directive.
Qed.

Lemma returns_register_base_directive env item :
  base_grammar_resolves env →
  item ∈ _directive_registry env →
  returns (register_base_directive env item).
Proof.
  intros Hresolves Hin reg. destruct item as [name [module cls_name]].
  unfold register_base_directive. case_bool_decide as Hexcl.
  - by eexists _, _.
  - destruct (Hresolves name module cls_name Hin Hexcl) as (m & c & Hm & Hc).
    unfold import_module, getattr, mbind, M_bind, mret, M_ret.
    rewrite Hm. cbv beta iota. rewrite Hc. by eexists _, _.
Qed.

(** A block that passes over a missing class returns, if its imports run
    into nothing but [ImportError]. *)
Lemma returns_tolerant_block env p :
  skips_missing_class p = true → import_errors_only env p →
  returns (package_block env p).
Proof.
  intros Hskip Hquiet%import_errors_only_Forall reg.
  destruct p; try discriminate Hskip; simpl in Hquiet |- *;
    repeat (apply Forall_cons in Hquiet as [? Hquiet]).
  all: unfold register_esp_docs, _add_optional_directive, try_except_ImportError,
         from_import, import_module, mbind, M_bind, mret, M_ret, raise.
  all: through_imports.
  all: by eexists _, _.
Qed.

Lemma returns_available_block env p :
  p ∈ [sphinx_tabs; sphinx_click; sphinxarg] → available env p →
  returns (package_block env p).
Proof.
  intros Hp Havailable%available_Forall reg.
  repeat (apply elem_of_cons in Hp as [-> | Hp]);
    try (by apply elem_of_nil in Hp).
  all: simpl in Havailable;
       repeat (apply Forall_cons in Havailable
                 as [(? & ? & ? & ?) Havailable]);
       repeat match goal with
              | H1 : ?x = Some ?a, H2 : ?x = Some ?b |- _ =>
                  rewrite H1 in H2; injection H2 as <-
              end.
  all: unfold package_block, register_sphinx_tabs, register_sphinx_click,
         register_sphinxarg, try_except_ImportError, import_module, getattr,
         mbind, M_bind, mret, M_ret.
  all: repeat match goal with
              | Hx : _ !! _ = Some _ |- _ => rewrite Hx; cbv beta iota zeta
              end.
  all: by eexists _, _.
Qed.

Lemma register_returns env reg0 :
  base_grammar_resolves env →
  (∀ p, p ∈ optional_packages → import_errors_only env p) →
  (∀ p, p ∈ [sphinx_tabs; sphinx_click; sphinxarg] →
        module_missing env p ∨ available env p) →
  ∃ reg, register env reg0 = Return () reg.
Proof.
  intros Hresolves Hquiet Hstrict.
  cut (returns (register env)).
  { intros H. destruct (H reg0) as ([] & reg & Hreg). by exists reg. }
  assert (∀ p, p ∈ [sphinx_tabs; sphinx_click; sphinxarg] →
               returns (package_block env p)) as Hblock.
  { intros p Hp. destruct (Hstrict p Hp) as [Hmissing | Havailable].
    - intros reg. exists (), reg. apply package_block_absent; [| by left].
      apply Hquiet. unfold optional_packages. apply elem_of_app. left.
      repeat (apply elem_of_cons in Hp as [-> | Hp]);
        [repeat constructor .. | by apply elem_of_nil in Hp].
    - by apply returns_available_block. }
  unfold register.
  repeat
    (cbv beta zeta;
     lazymatch goal with
     | |- returns (for_each _ _) => apply returns_for_each; intros ? ?
     | |- returns (_ ≫= _) => apply returns_bind; [| intros ?]
     | |- returns (mret _) => apply returns_ret
     | |- returns (_add_directive _ _ _ _) => apply returns_add_directive
     | |- returns (register_canonical_role _ _) =>
         apply returns_register_canonical_role
     | |- returns (register_domain _) => apply returns_register_domain
     | |- returns (register_base_directive _ _) =>
         by apply returns_register_base_directive
     | |- returns (register_documenter _ _) => unfold register_documenter
     | |- returns (_add_optional_directive _ ?n ?c ?m) =>
         apply (returns_tolerant_block env (probed n c m)); [reflexivity |];
         apply Hquiet; vm_compute; repeat constructor
     | |- returns (register_esp_docs _) =>
         apply (returns_tolerant_block env esp_docs); [reflexivity |];
         apply Hquiet; vm_compute; repeat constructor
     | |- returns (register_sphinx_tabs _) =>
         apply (Hblock sphinx_tabs); repeat constructor
     | |- returns (register_sphinx_click _) =>
         apply (Hblock sphinx_click); repeat constructor
     | |- returns (register_sphinxarg _) =>
         apply (Hblock sphinxarg); repeat constructor
     | |- returns (let '(_, _) := ?x in _) => destruct x
     | |- returns (if ?b then _ else _) => destruct b
     end).
Qed.

(** X17: what [register] does about an optional package [p] whose imports
    run into nothing but [ImportError]:
    - if a module of [p] cannot be imported, or [p] is one of the packages
      whose block also passes over a missing class (esp_docs and the probed
      ones) and a class cannot be found, then the block of [p] leaves the
      registry as it is and returns; [register] returns if the base grammar
      resolves and the other packages are in order; and it leaves the
      directive and role names of [p] as they were, unless something else
      registers them;
    - if [p] is available, every directive name of [p] is registered as a
      passthrough directive and every role name as the reference-role
      wrapper. *)
Theorem optional_package_registration env reg0 p :
  p ∈ optional_packages →
  (import_errors_only env p →
   module_missing env p ∨ (skips_missing_class p = true ∧ class_missing env p) →
   (∀ reg, package_block env p reg = Return () reg) ∧
   (base_grammar_resolves env →
    (∀ q, q ∈ optional_packages → import_errors_only env q) →
    (∀ q, q ∈ [sphinx_tabs; sphinx_click; sphinxarg] →
          module_missing env q ∨ available env q) →
    ∃ reg, register env reg0 = Return () reg) ∧
   (∀ reg, register env reg0 = Return () reg →
      (∀ n, n ∈ package_directives p →
            n ∉ (domain_directives (PythonDomain env)).*1 →
            n ∉ base_directive_names env →
            _directives reg !! n = _directives reg0 !! n) ∧
      (∀ n, n ∈ package_roles p →
            (∀ domain name role_callable,
               domain ∈ domains env → (name, role_callable) ∈ domain_roles domain →
               isinstance_ReferenceRole role_callable = true → n ≠ name) →
            _role_registry reg !! n = _role_registry reg0 !! n)))
  ∧ (available env p →
     ∀ reg, register env reg0 = Return () reg →
       (∀ n, n ∈ package_directives p →
             ∃ c, _directives reg !! n = Some c ∧
                  ∀ self, d_class self = c → run self = Some ([directive self], [])) ∧
       (∀ n, n ∈ package_roles p →
             _role_registry reg !! n = Some ReferenceRole_new)).
Proof.
  intros Hp. split.
  - intros Hquiet Habsent. split; [| split].
    + intros reg. by apply package_block_absent.
    + apply register_returns.
    + intros reg Hrun. split.
      * intros n. by apply (absent_package_directive_kept env reg0 reg p n).
      * intros n. by apply (absent_package_role_kept env reg0 reg p n).
  - intros Havailable reg Hrun.
    by apply (available_package_registered env reg0 reg p).
Qed.

Lemma optional_package_registration_witness :
  _directives Sample.reg !! "tabs" = None ∧
  ∃ c, _directives (Sample.registry Sample.env_blockdiag) !! "blockdiag" = Some c ∧
       ∀ self, d_class self = c → run self = Some ([directive self], []).
Proof.
  split.
  - assert (sphinx_tabs ∈ optional_packages) as Hp by (vm_compute; repeat constructor).
    assert (import_errors_only Sample.env sphinx_tabs) as Hquiet.
    { intros name cls _ _. by exists name. }
    assert (module_missing Sample.env sphinx_tabs) as Hmissing.
    { exists "sphinx_tabs.tabs", "TabsDirective". split; [left |].
      vm_compute. reflexivity. }
    destruct (optional_package_registration Sample.env empty_registry
                sphinx_tabs Hp) as [Habsent _].
    destruct (Habsent Hquiet (or_introl Hmissing)) as (_ & _ & Hkept).
    destruct (Hkept Sample.reg sample_register) as [Hdirectives _].
    apply (Hdirectives "tabs").
    + left.
    + apply (bool_decide_unpack _). vm_compute. exact I.
    + apply (bool_decide_unpack _). vm_compute. exact I.
  - assert (probed "blockdiag" "Blockdiag" "sphinxcontrib.blockdiag"
              ∈ optional_packages) as Hp by (vm_compute; repeat constructor).
    destruct (optional_package_registration Sample.env_blockdiag empty_registry
                _ Hp) as [_ Hpresent].
    eapply Hpresent; [| exact sample_register_blockdiag | left].
    intros name cls Hin. apply list_elem_of_singleton in Hin as [= -> ->].
    exists {[ "Blockdiag" := Sample.host_directive "Blockdiag" ]},
      (Sample.host_directive "Blockdiag").
    split; vm_compute; reflexivity.
Defined.

(** C6: the claim fails on the code where a class is missing from a module
    that imports. With an old [sphinx_tabs] whose [tabs] module has no
    [GroupTabDirective] yet, [register] raises [AttributeError], after it has
    registered [tabs] and [tab] and before it gets to [code-tab]; the same
    host without the package is registered without error, and the probe
    [_add_optional_directive] passes over the very same module and class
    name without raising and without a registration. *)
Theorem missing_class_in_sphinx_tabs_raises :
  sphinx_tabs ∈ optional_packages ∧
  class_missing Sample.env_old_tabs sphinx_tabs ∧
  register Sample.env empty_registry = Return () Sample.reg ∧
  match register Sample.env_old_tabs empty_registry with
  | Return _ _ => False
  | Raised e reg =>
      e = AttributeError "sphinx_tabs.tabs" "GroupTabDirective" ∧
      is_Some (_directives reg !! "tabs") ∧
      _directives reg !! "code-tab" = None
  end ∧
  ∀ reg, _add_optional_directive Sample.env_old_tabs "group-tab"
           "GroupTabDirective" "sphinx_tabs.tabs" reg = Return () reg.
Proof.
  split; [vm_compute; repeat constructor |].
  split.
  { exists "sphinx_tabs.tabs", "GroupTabDirective", Sample.old_tabs_module.
    split; [right; right; left |]. split; vm_compute; reflexivity. }
  split; [exact sample_register |].
  split.
  { vm_compute. split; [reflexivity |]. split; [eauto | reflexivity]. }
  intros reg. reflexivity.
Qed.

(** The import of an optional package that breaks otherwise than by
    [ImportError] is not passed over either: with a [sphinx_click] whose
    import raises [SyntaxError], [register] raises it. *)
Lemma broken_import_of_sphinx_click_raises :
  match register Sample.env_broken_click empty_registry with
  | Return _ _ => False
  | Raised e reg => e = OtherException "SyntaxError"
  end.
Proof. vm_compute. reflexivity. Qed.

(** * Further properties *)

(** ** The walk over the subclasses *)

Lemma PyClass_ind_subclasses {T} (P : PyClass T → Prop) :
  (∀ data subclasses, Forall P subclasses → P (py_class data subclasses)) →
  ∀ cls, P cls.
Proof.
  intros H. fix IH 1. intros [data subclasses]. apply H.
  revert subclasses. fix IHl 1. intros [| c l]; constructor.
  - apply IH.
  - apply IHl.
Qed.

Lemma _subclasses_bind {T} (cls : PyClass T) :
  _subclasses cls = __subclasses__ cls ≫= λ c, c :: _subclasses c.
Proof.
  destruct cls as [data subclasses]. simpl.
  induction subclasses as [| c l IH]; [reflexivity |].
  simpl. by rewrite IH.
Qed.

Lemma elem_of_subclasses {T} (cls c : PyClass T) :
  c ∈ _subclasses cls ↔
  ∃ child, child ∈ __subclasses__ cls ∧ (c = child ∨ c ∈ _subclasses child).
Proof.
  rewrite _subclasses_bind, list_elem_of_bind.
  split; intros (child & H1 & H2); exists child.
  - by rewrite elem_of_cons in H1.
  - by rewrite elem_of_cons.
Qed.

(** X1: the walk yields exactly the proper descendants of the class: every
    direct subclass and every descendant of one, and nothing else. *)
Theorem subclasses_are_descendants {T} (cls c : PyClass T) :
  c ∈ _subclasses cls ↔ descendant cls c.
Proof.
  split.
  - revert c. induction cls as [data subclasses IH] using PyClass_ind_subclasses.
    intros c (child & Hchild & Hc)%elem_of_subclasses.
    destruct Hc as [-> | Hc]; [by apply descendant_direct |].
    apply descendant_step with child; [done |].
    simpl in Hchild. rewrite Forall_forall in IH. by apply IH.
  - induction 1 as [cls c Hc | cls c c' Hc _ IH]; apply elem_of_subclasses.
    + exists c. auto.
    + exists c. auto.
Qed.

(** ** The role wrappers *)

(** X2: the name [generic_role] stores is a fixed point of the alias
    resolution: invoking the role again under the stored name stores the same
    name. *)
Theorem generic_role_name_stable r rawtext text :
  ∃ r',
    generic_role r rawtext text
      = ([role rawtext (unescape_restore_backslashes text) r'], []) ∧
    ∀ rawtext' text',
      generic_role r' rawtext' text'
        = ([role rawtext' (unescape_restore_backslashes text') r'], []).
Proof.
  unfold generic_role.
  destruct (role_aliases !! lower r) as [canonical |] eqn:Hr; simpl.
  - exists canonical. split; [reflexivity |]. intros rawtext' text'.
    apply role_aliases_entries in Hr.
    repeat (apply elem_of_cons in Hr as [[= _ ->] | Hr]; [reflexivity |]).
    by apply elem_of_nil in Hr.
  - exists r. split; [reflexivity |]. intros rawtext' text'. by rewrite Hr.
Qed.

(** ** The interceptor: what the synthesized class inherits *)

(** X3: the class [_add_directive] registers under [name] resolves an
    attribute that [attrs] binds to the value [attrs] gives it, also for
    [option_spec], [run] and [raw]; and any other attribute than these three
    as the original class does. This is for the attributes a class body
    defines, not for the special names (two leading underscores) that Python
    binds on every new class. *)
Theorem interceptor_inherits name cls attrs raw reg :
  ∃ reg' c,
    _add_directive name cls attrs raw reg = Return () reg' ∧
    _directives reg' !! name = Some c ∧
    (∀ attr v, special_name attr = false →
               default ∅ attrs !! attr = Some v → class_getattr c attr = Some v) ∧
    (∀ attr, special_name attr = false →
             default ∅ attrs !! attr = None →
             attr ≠ "option_spec" → attr ≠ "run" → attr ≠ "raw" →
             class_getattr c attr = class_getattr cls attr).
Proof.
  eexists _, _. split; [reflexivity |]. split; [apply lookup_insert_eq |].
  split.
  - intros attr v _ H. simpl. unfold interceptor_namespace.
    by rewrite (lookup_union_Some_l _ _ _ _ H).
  - intros attr _ H Hspec Hrun Hraw. rewrite (interceptor_getattr _ _ _ _ H).
    by rewrite !lookup_insert_ne, lookup_empty.
Qed.

Lemma interceptor_inherits_witness :
  let Role := host_class "Role" {[ "has_content" := VBool true ]} in
  ∃ c,
    _directives
      (match _add_directive "role" Role (Some {[ "required_arguments" := VInt 1 ]})
               None empty_registry with
       | Return _ reg | Raised _ reg => reg
       end) !! "role" = Some c ∧
    class_getattr c "required_arguments" = Some (VInt 1) ∧
    class_getattr c "has_content" = Some (VBool true).
Proof.
  intros Role.
  destruct (interceptor_inherits "role" Role
              (Some {[ "required_arguments" := VInt 1 ]}) None empty_registry)
    as (reg' & c & Hrun & Hc & Hattrs & Hinherits).
  exists c. rewrite Hrun. split; [exact Hc |]. split.
  - apply Hattrs; reflexivity.
  - rewrite Hinherits; [reflexivity | reflexivity | reflexivity | discriminate ..].
Defined.

(** X4: what [_add_optional_directive] lets out and what it leaves behind.
    It raises only what the import of the module raised, only when that is
    not an [ImportError], and it has changed nothing then. When it returns,
    it has either changed nothing (the import failed with [ImportError], or
    the module has no attribute of that name), or it has found the class in
    the module and registered its interceptor, raw by default, under the
    directive's name and nothing else. *)
Theorem add_optional_directive_outcome env directive_name directive_cls
    importlib_name reg :
  (∀ e reg',
     _add_optional_directive env directive_name directive_cls importlib_name reg
       = Raised e reg' →
     reg' = reg ∧ importable env !! importlib_name = None ∧
     e = import_failure env importlib_name ∧ ∀ n, e ≠ ImportError n) ∧
  (∀ reg',
     _add_optional_directive env directive_name directive_cls importlib_name reg
       = Return () reg' →
     (reg' = reg ∧
      ((importable env !! importlib_name = None ∧
        ∃ n, import_failure env importlib_name = ImportError n) ∨
       ∃ module, importable env !! importlib_name = Some module ∧
                 module !! directive_cls = None)) ∨
     ∃ module cls,
       importable env !! importlib_name = Some module ∧
       module !! directive_cls = Some cls ∧
       _directives reg'
         = <[directive_name := interceptor_class cls None None]> (_directives reg) ∧
       _role_registry reg' = _role_registry reg).
Proof.
  unfold _add_optional_directive, try_except_ImportError, import_module.
  destruct (importable env !! importlib_name) as [module |] eqn:Hmodule; simpl.
  - destruct (module !! directive_cls) as [cls |] eqn:Hcls; split.
    + intros e reg' H. discriminate H.
    + intros reg' [= <-]. right. by exists module, cls.
    + intros e reg' H. discriminate H.
    + intros reg' [= <-]. left. split; [reflexivity |]. right. by exists module.
  - unfold raise. destruct (import_failure env importlib_name) as [n | obj attr | k];
      split.
    + intros e reg' H. discriminate H.
    + intros reg' [= <-]. left. split; [reflexivity |]. left. eauto.
    + intros e reg' [= <- <-]. done.
    + intros reg' H. discriminate H.
    + intros e reg' [= <- <-]. done.
    + intros reg' H. discriminate H.
Qed.

Lemma add_optional_directive_outcome_witness :
  _add_optional_directive Sample.env_broken_click "click" "ClickDirective"
    "sphinx_click" empty_registry
  = Raised (OtherException "SyntaxError") empty_registry ∧
  _add_optional_directive Sample.env "click" "ClickDirective" "sphinx_click"
    empty_registry
  = Return () empty_registry.
Proof.
  split.
  - destruct (_add_optional_directive Sample.env_broken_click "click"
                "ClickDirective" "sphinx_click" empty_registry)
      as [[] reg' | e reg'] eqn:Hrun.
    + vm_compute in Hrun. discriminate Hrun.
    + destruct (proj1 (add_optional_directive_outcome Sample.env_broken_click
                         "click" "ClickDirective" "sphinx_click" empty_registry)
                  e reg' Hrun) as (-> & _ & -> & _).
      reflexivity.
  - destruct (_add_optional_directive Sample.env "click" "ClickDirective"
                "sphinx_click" empty_registry) as [[] reg' | e reg'] eqn:Hrun.
    + destruct (proj2 (add_optional_directive_outcome Sample.env
                         "click" "ClickDirective" "sphinx_click" empty_registry)
                  reg' Hrun) as [[-> _] | (module & cls & Himport & _)].
      * reflexivity.
      * vm_compute in Himport. discriminate Himport.
    + vm_compute in Hrun. discriminate Hrun.
Defined.

(** ** The roles registered by name *)

Ltac reference_role_leaf :=
  apply stable_register_role; intros ?m; apply entry_at_insert; intros _;
  reflexivity.

(** X5: [download] ends up registered as the reference-role wrapper,
    whatever the domains and the optional packages register. *)
Theorem download_role_registered env reg0 reg :
  register env reg0 = Return () reg →
  _role_registry reg !! "download" = Some ReferenceRole_new.
Proof.
  intros Hrun.
  cut (on_roles (entry_at "download" (λ f, f = ReferenceRole_new)) reg).
  { by intros (f & Hf & ->). }
  unfold register in Hrun. step Hrun as Hstandard. step Hrun as Hdownload.
  eapply stable_Return; [| | exact Hrun].
  - stable_split. all: reference_role_leaf.
  - injection Hdownload as <-. by apply entry_at_insert_here.
Qed.

Lemma download_role_registered_witness :
  _role_registry Sample.reg !! "download" = Some ReferenceRole_new.
Proof.
  exact (download_role_registered Sample.env empty_registry Sample.reg
           sample_register).
Defined.

(** X6: each of the five standard roles ends up registered with
    [generic_role], unless a reference role of a discovered domain has that
    very name, and then it ends up with the reference-role wrapper. *)
Theorem standard_roles_registered env reg0 reg r :
  register env reg0 = Return () reg →
  r ∈ standard_roles →
  (_role_registry reg !! r = Some generic_role_fn ∨
   _role_registry reg !! r = Some ReferenceRole_new) ∧
  ((∀ domain name role_callable,
      domain ∈ domains env → (name, role_callable) ∈ domain_roles domain →
      isinstance_ReferenceRole role_callable = true → r ≠ name) →
   _role_registry reg !! r = Some generic_role_fn) ∧
  (∀ domain role_callable,
      domain ∈ domains env → (r, role_callable) ∈ domain_roles domain →
      isinstance_ReferenceRole role_callable = true →
      _role_registry reg !! r = Some ReferenceRole_new).
Proof.
  intros Hrun Hr. split; [| split].
  - cut (on_roles (entry_at r (λ f, f = generic_role_fn ∨ f = ReferenceRole_new))
           reg).
    { intros (f & Hf & [-> | ->]); auto. }
    unfold register in Hrun. step Hrun as Hstandard.
    eapply stable_Return; [| | exact Hrun].
    + stable_split.
      all: apply stable_register_role; intros m; apply entry_at_insert;
           intros _; by right.
    + eapply for_each_establish; [exact Hr | | | exact Hstandard].
      * intros ? ? H. injection H as <-. apply entry_at_insert_here. by left.
      * intros y _. apply stable_register_role. intros m.
        apply entry_at_insert. intros _. by left.
  - intros Hdomains.
    cut (on_roles (entry_at r (λ f, f = generic_role_fn)) reg).
    { by intros (f & Hf & ->). }
    unfold register in Hrun. step Hrun as Hstandard.
    eapply stable_Return; [| | exact Hrun].
    + unfold standard_roles in Hr.
      repeat (apply elem_of_cons in Hr as [-> | Hr]);
        try (by apply elem_of_nil in Hr).
      all: stable_split.
      all: apply stable_register_role; intros m; apply entry_at_insert;
           intros Heq; exfalso.
      all: first
        [ discriminate Heq
        | apply (f_equal has_colon) in Heq; rewrite has_colon_separator in Heq;
          vm_compute in Heq; discriminate Heq
        | match goal with
          | H : _ ∈ esp_docs_roles |- _ =>
              rewrite Heq in H; revert H; apply (bool_decide_unpack _);
              by vm_compute
          end
        | eapply Hdomains;
          [apply list_elem_of_fmap; eauto | eassumption | eassumption
          | by symmetry] ].
    + eapply for_each_establish; [exact Hr | | | exact Hstandard].
      * intros ? ? H. injection H as <-. by apply entry_at_insert_here.
      * intros y _. apply stable_register_role. intros m.
        by apply entry_at_insert.
  - intros domain role_callable Hdomain Hin Hinst.
    by apply (register_reference_role env reg0 reg r domain r role_callable);
      [.. | left].
Qed.

Lemma sample_domains domain :
  domain ∈ domains Sample.env → domain = Sample.CDomain ∨ domain = Sample.PyDomain.
Proof.
  unfold domains. simpl. intros H.
  repeat (apply elem_of_cons in H as [-> | H]); auto.
  by apply elem_of_nil in H.
Qed.

Lemma standard_roles_registered_witness :
  _role_registry Sample.reg !! "math" = Some generic_role_fn.
Proof.
  apply (standard_roles_registered Sample.env empty_registry Sample.reg "math"
           sample_register).
  - left.
  - intros domain name role_callable [-> | ->]%sample_domains Hin _ <-;
      simpl in Hin;
      repeat (apply elem_of_cons in Hin as [Hin | Hin]; [discriminate Hin |]);
      by apply elem_of_nil in Hin.
Defined.

(** ** The directives registered by name *)

(** X7: every directive of the default (Python) domain ends up registered
    under its unqualified name as a passthrough directive; and if the name is
    not [role], not a directive of the base grammar and not registered by a
    later step, the class registered is the interceptor of a class the
    domain has under that name. *)
Theorem default_domain_directives_registered env reg0 reg name cls :
  register env reg0 = Return () reg →
  (name, cls) ∈ domain_directives (PythonDomain env) →
  (∃ c, _directives reg !! name = Some c ∧
        ∀ self, d_class self = c → run self = Some ([directive self], []))
  ∧ (name ≠ "role" →
     name ∉ base_directive_names env →
     name ∉ later_directive_names env →
     ∃ cls', (name, cls') ∈ domain_directives (PythonDomain env) ∧
             _directives reg !! name = Some (interceptor_class cls' None None)).
Proof.
  intros Hrun Hin. unfold register in Hrun.
  step Hrun as Hstandard. step Hrun as Hdownload. step Hrun as Hdomains.
  step Hrun as Hpy. split.
  - change (on_directives (entry_at name runs_passthrough) reg).
    eapply stable_Return; [| | exact Hrun].
    + stable_split. all: passthrough_leaf.
    + eapply for_each_establish; [exact Hin | | | exact Hpy].
      * intros ? ? H. injection H as <-. apply entry_at_insert_here.
        by apply interceptor_runs_passthrough.
      * intros [n c] _. passthrough_leaf.
  - intros Hrole Hbase Hlater.
    cut (on_directives
           (entry_at name
              (λ c, ∃ cls', (name, cls') ∈ domain_directives (PythonDomain env) ∧
                            c = interceptor_class cls' None None)) reg).
    { intros (c & Hc & cls' & Hcls' & ->). eauto. }
    eapply stable_Return; [| | exact Hrun].
    + stable_split.
      all: first
        [ other_name Hlater
        | apply stable_add_directive; intros m; apply entry_at_insert;
          intros <-; exfalso;
          first
            [ by apply Hrole
            | apply Hbase; apply list_elem_of_fmap;
              eexists (_, (_, _)); split; [reflexivity | eassumption] ] ].
    + eapply for_each_establish; [exact Hin | | | exact Hpy].
      * intros ? ? H. injection H as <-. apply entry_at_insert_here. eauto.
      * intros [n c] Hnc. apply stable_add_directive. intros m.
        apply entry_at_insert. intros ->. eauto.
Qed.

Lemma default_domain_directives_registered_witness :
  ∃ cls', _directives Sample.reg !! "function"
            = Some (interceptor_class cls' None None).
Proof.
  destruct (default_domain_directives_registered Sample.env empty_registry
              Sample.reg "function" (Sample.host_directive "PyFunction")
              sample_register) as [_ H].
  - left.
  - destruct H as (cls' & _ & Hcls').
    + discriminate.
    + apply (bool_decide_unpack _). vm_compute. exact I.
    + apply (bool_decide_unpack _). vm_compute. exact I.
    + by exists cls'.
Defined.

Lemma for_each_establish_run {A} (E : Registry → Prop) (l : list A) (body : A → M unit) x reg reg' :
  x ∈ l →
  (∀ r r', body x r = Return () r' → E r') →
  (∀ y r r', y ∈ l → body y r = Return () r' → E r → E r') →
  for_each l body reg = Return () reg' → E reg'.
Proof.
  intros Hx Hest Hst.
  assert (∀ k r r', (∀ y, y ∈ k → y ∈ l) →
            for_each k body r = Return () r' → E r → E r') as Hkeep.
  { induction k as [| y k IH]; intros r r' Hk Hrun HE; simpl in Hrun.
    - by injection Hrun as <-.
    - step Hrun as Hy. eapply IH; [| exact Hrun |].
      + intros z Hz. apply Hk. by right.
      + eapply Hst; [apply Hk; left | exact Hy | exact HE]. }
  assert (∀ k r r', (∀ y, y ∈ k → y ∈ l) → x ∈ k →
            for_each k body r = Return () r' → E r') as Hgoal.
  { induction k as [| y k IH]; intros r r' Hk Hxk Hrun;
      [by apply elem_of_nil in Hxk |].
    simpl in Hrun. step Hrun as Hy.
    apply elem_of_cons in Hxk as [-> | Hxk].
    - eapply Hkeep; [| exact Hrun | by eapply Hest].
      intros z Hz. apply Hk. by right.
    - eapply IH; [| exact Hxk | exact Hrun].
      intros z Hz. apply Hk. by right. }
  by apply (Hgoal l reg reg').
Qed.

Lemma register_base_directive_Return env name module cls_name reg reg' :
  name ∉ exclude_directives →
  register_base_directive env (name, (module, cls_name)) reg = Return () reg' →
  ∃ m cls,
    importable env !! ("docutils.parsers.rst.directives." +:+ module) = Some m ∧
    m !! cls_name = Some cls ∧
    _directives reg' =
      <[name := interceptor_class cls None
                  (Some (bool_decide (name ∉ non_raw_directives)))]>
        (_directives reg).
Proof.
  intros Hexcl. unfold register_base_directive.
  rewrite bool_decide_eq_false_2 by done.
  unfold import_module, getattr, mbind, M_bind, mret, M_ret, raise.
  destruct (importable env !! _) as [m |] eqn:Hm; cbv beta iota;
    [| intros H; discriminate H].
  destruct (lookup cls_name m) as [cls |] eqn:Hcls; cbv beta iota;
    [| intros H; discriminate H].
  intros [= <-]. exists m, cls. by rewrite Hcls.
Qed.

(** X8: a directive of the base grammar, not excluded and not registered
    again by a later step, ends up as the interceptor of the class docutils
    delivers for it, whatever a domain had registered under that name
    before. *)
Theorem base_grammar_overrides env reg0 reg name :
  register env reg0 = Return () reg →
  name ∈ base_directive_names env →
  name ∉ exclude_directives →
  name ∉ later_directive_names env →
  ∃ module cls_name m cls,
    (name, (module, cls_name)) ∈ _directive_registry env ∧
    importable env !! ("docutils.parsers.rst.directives." +:+ module) = Some m ∧
    m !! cls_name = Some cls ∧
    _directives reg !! name
      = Some (interceptor_class cls None
                (Some (bool_decide (name ∉ non_raw_directives)))).
Proof.
  intros Hrun Hbase Hexcl Hlater. unfold register in Hrun.
  step Hrun as Hstandard. step Hrun as Hdownload. step Hrun as Hdomains.
  step Hrun as Hpy. step Hrun as Hrole. step Hrun as Hloop.
  cut (on_directives
         (entry_at name
            (λ c, ∃ module cls_name m cls,
               (name, (module, cls_name)) ∈ _directive_registry env ∧
               importable env !! ("docutils.parsers.rst.directives." +:+ module)
                 = Some m ∧
               m !! cls_name = Some cls ∧
               c = interceptor_class cls None
                     (Some (bool_decide (name ∉ non_raw_directives))))) reg).
  { intros (c & Hc & module & cls_name & m & cls & ? & ? & ? & ->).
    by exists module, cls_name, m, cls. }
  eapply stable_Return; [| | exact Hrun].
  { stable_split. all: other_name Hlater. }
  apply list_elem_of_fmap in Hbase as ([n [module cls_name]] & -> & Hin).
  simpl in *.
  eapply for_each_establish_run; [exact Hin | | | exact Hloop].
  - intros s s' H.
    apply register_base_directive_Return in H as (m & cls & Hm & Hcls & Hr');
      [| done].
    unfold on_directives. rewrite Hr'. apply entry_at_insert_here.
    by exists module, cls_name, m, cls.
  - intros [n' [module' cls_name']] s s' Hy H HE.
    destruct (decide (n' = n)) as [-> | Hne].
    + apply register_base_directive_Return in H as (m & cls & Hm & Hcls & Hr');
        [| done].
      unfold on_directives. rewrite Hr'. apply entry_at_insert_here.
      by exists module', cls_name', m, cls.
    + eapply stable_Return; [| exact HE | exact H].
      stable_split. apply stable_add_directive. intros m.
      by apply entry_at_insert.
Qed.

Lemma base_grammar_overrides_witness :
  ∃ module cls_name m cls,
    ("class", (module, cls_name)) ∈ _directive_registry Sample.env ∧
    importable Sample.env !! ("docutils.parsers.rst.directives." +:+ module)
      = Some m ∧
    m !! cls_name = Some cls ∧
    _directives Sample.reg !! "class"
      = Some (interceptor_class cls None
                (Some (bool_decide ("class" ∉ non_raw_directives)))).
Proof.
  apply (base_grammar_overrides Sample.env empty_registry Sample.reg "class"
           sample_register).
  - apply (bool_decide_unpack _). vm_compute. exact I.
  - apply (bool_decide_unpack _). vm_compute. exact I.
  - apply (bool_decide_unpack _). vm_compute. exact I.
Defined.

(** A registration under a literal name, or an autodoc name, that differs
    from the name watched. *)
Ltac differs_literally :=
  apply stable_add_directive; intros ?m; apply entry_at_insert; intros Heq;
  first [ discriminate Heq | simpl in Heq; discriminate Heq ].

(** X9: the seven Sphinx directives registered by name end
    up exactly as registered there, on the class and with the classification
    given: no later step registers any of these names again, and [glossary]
    is the only one that is not raw. *)
Theorem sphinx_directives_registered env reg0 reg name cls raw :
  register env reg0 = Return () reg →
  (name, cls, raw) ∈ sphinx_directives env →
  _directives reg !! name = Some (interceptor_class cls None raw) ∧
  (class_raw (interceptor_class cls None raw) = Some false ↔ name = "glossary").
Proof.
  intros Hrun Hin. split.
  - cut (on_directives
           (entry_at name (λ c, c = interceptor_class cls None raw)) reg).
    { by intros (c & Hc & ->). }
    unfold register in Hrun. do 6 step Hrun.
    unfold sphinx_directives in Hin.
    repeat (apply elem_of_cons in Hin as [[= -> -> ->] | Hin]);
      try (by apply elem_of_nil in Hin).
    all: match goal with
         | |- on_directives (entry_at ?n (λ c, c = interceptor_class ?k None ?w)) _ =>
             locate_block (_add_directive n k None w) Hrun Hblock
         end.
    all: eapply stable_Return; [| | exact Hrun];
         [ stable_split; differs_literally
         | injection Hblock as <-; by apply entry_at_insert_here ].
  - unfold sphinx_directives in Hin.
    repeat (apply elem_of_cons in Hin as [[= -> -> ->] | Hin]);
      try (by apply elem_of_nil in Hin).
    all: rewrite interceptor_raw by reflexivity; simpl; split; intros [=];
         reflexivity.
Qed.

Lemma sphinx_directives_registered_witness :
  _directives Sample.reg !! "glossary"
    = Some (interceptor_class (Sample.host_directive "Glossary") None (Some false)).
Proof.
  apply (sphinx_directives_registered Sample.env empty_registry Sample.reg
           "glossary" (Sample.host_directive "Glossary") (Some false)
           sample_register).
  left.
Defined.

(** X10: for every documenter whose [objtype] is not [object], the
    directive [auto] + [objtype] ends up registered as the interceptor of
    autodoc's directive class, classified non-raw; no optional package
    registers such a name. *)
Theorem autodoc_directives_registered env reg0 reg d :
  register env reg0 = Return () reg →
  d ∈ documenters env →
  objtype d ≠ "object" →
  _directives reg !! ("auto" +:+ objtype d)
    = Some (interceptor_class (AutodocDirective env) None (Some false)).
Proof.
  intros Hrun (t & -> & Ht)%list_elem_of_fmap Hobject.
  cut (on_directives
         (entry_at ("auto" +:+ objtype (cls_data t))
            (λ c, c = interceptor_class (AutodocDirective env) None (Some false)))
         reg).
  { by intros (c & Hc & ->). }
  unfold register in Hrun. do 13 step Hrun. step Hrun as Hautodoc.
  eapply stable_Return; [| | exact Hrun].
  - stable_split. all: differs_literally.
  - eapply for_each_establish; [exact Ht | | | exact Hautodoc].
    + intros ? ? H. unfold register_documenter in H.
      rewrite bool_decide_eq_true_2 in H by done.
      injection H as <-. by apply entry_at_insert_here.
    + intros y _. stable_split. apply stable_add_directive. intros m.
      by apply entry_at_insert.
Qed.

Lemma autodoc_directives_registered_witness :
  _directives Sample.reg !! "automodule"
    = Some (interceptor_class (Sample.host_directive "AutodocDirective") None
              (Some false)).
Proof.
  apply (autodoc_directives_registered Sample.env empty_registry Sample.reg
           {| objtype := "module" |} sample_register).
  - unfold documenters. simpl. left.
  - discriminate.
Defined.

(** X11: the loop over the documenters leaves out the base type: nothing
    is registered under [autoobject], unless the default domain or the base
    grammar has a directive of that name. *)
Theorem autoobject_not_registered env reg0 reg :
  register env reg0 = Return () reg →
  "autoobject" ∉ (domain_directives (PythonDomain env)).*1 →
  "autoobject" ∉ base_directive_names env →
  _directives reg !! "autoobject" = _directives reg0 !! "autoobject".
Proof.
  intros Hrun Hpy Hbase.
  change (on_directives (entry_kept (_directives reg0) "autoobject") reg).
  eapply stable_Return; [| | exact Hrun]; [| reflexivity].
  unfold register. stable_split.
  all: first
    [ other_directive Hpy Hbase
    | apply stable_add_directive; intros m; apply entry_kept_insert; intros Heq;
      simpl in Heq; injection Heq as Heq;
      match goal with
      | H : bool_decide (_ ≠ "object") = true |- _ =>
          by apply bool_decide_eq_true_1 in H
      end ].
Qed.

Lemma autoobject_not_registered_witness :
  _directives Sample.reg !! "autoobject" = None.
Proof.
  apply (autoobject_not_registered Sample.env empty_registry Sample.reg
           sample_register).
  - apply (bool_decide_unpack _). vm_compute. exact I.
  - apply (bool_decide_unpack _). vm_compute. exact I.
Defined.

(** ** [register] as an overlay *)

Lemma overlay_empty reg : overlay ∅ ∅ reg = reg.
Proof.
  destruct reg as [d r]. unfold overlay. simpl. by rewrite !(left_id_L ∅ (∪)).
Qed.

Lemma overlay_overlay Wd Wr Wd' Wr' reg :
  overlay Wd' Wr' (overlay Wd Wr reg) = overlay (Wd' ∪ Wd) (Wr' ∪ Wr) reg.
Proof. unfold overlay. simpl. by rewrite !(assoc_L (∪)). Qed.

Lemma lays_over_ret {A} (a : A) : lays_over (mret a).
Proof. left. exists a, ∅, ∅. intros reg. by rewrite overlay_empty. Qed.

Lemma lays_over_raise {A} e : lays_over (raise e : M A).
Proof. right. exists e, ∅, ∅. intros reg. by rewrite overlay_empty. Qed.

Lemma lays_over_bind {A B} (m : M A) (f : A → M B) :
  lays_over m → (∀ a, lays_over (f a)) → lays_over (m ≫= f).
Proof.
  intros [(a & Wd & Wr & Hm) | (e & Wd & Wr & Hm)] Hf.
  - destruct (Hf a) as [(b & Wd' & Wr' & Hfa) | (e & Wd' & Wr' & Hfa)].
    + left. exists b, (Wd' ∪ Wd), (Wr' ∪ Wr). intros reg.
      unfold mbind, M_bind. by rewrite Hm, Hfa, overlay_overlay.
    + right. exists e, (Wd' ∪ Wd), (Wr' ∪ Wr). intros reg.
      unfold mbind, M_bind. by rewrite Hm, Hfa, overlay_overlay.
  - right. exists e, Wd, Wr. intros reg. unfold mbind, M_bind. by rewrite Hm.
Qed.

Lemma lays_over_for_each {A} (l : list A) (body : A → M unit) :
  (∀ x, x ∈ l → lays_over (body x)) → lays_over (for_each l body).
Proof.
  induction l as [| x l IH]; intros H; simpl.
  - apply lays_over_ret.
  - apply lays_over_bind; [apply H; left | intros _; apply IH].
    intros y Hy. apply H. by right.
Qed.

Lemma lays_over_try_except {A} (body : M A) (orelse : A → M unit) :
  lays_over body → (∀ a, lays_over (orelse a)) →
  lays_over (try_except_ImportError body orelse).
Proof.
  intros [(a & Wd & Wr & Hm) | (e & Wd & Wr & Hm)] Hf.
  - destruct (Hf a) as [(b & Wd' & Wr' & Hfa) | (e & Wd' & Wr' & Hfa)].
    + left. exists b, (Wd' ∪ Wd), (Wr' ∪ Wr). intros reg.
      unfold try_except_ImportError. by rewrite Hm, Hfa, overlay_overlay.
    + right. exists e, (Wd' ∪ Wd), (Wr' ∪ Wr). intros reg.
      unfold try_except_ImportError. by rewrite Hm, Hfa, overlay_overlay.
  - destruct e as [name | obj attr | k].
    + left. exists (), Wd, Wr. intros reg.
      unfold try_except_ImportError. by rewrite Hm.
    + right. exists (AttributeError obj attr), Wd, Wr. intros reg.
      unfold try_except_ImportError. by rewrite Hm.
    + right. exists (OtherException k), Wd, Wr. intros reg.
      unfold try_except_ImportError. by rewrite Hm.
Qed.

Lemma lays_over_add_directive name cls attrs raw :
  lays_over (_add_directive name cls attrs raw).
Proof.
  left. exists (), {[ name := interceptor_class cls attrs raw ]}, ∅.
  intros reg. unfold _add_directive, register_directive, overlay.
  by rewrite insert_union_singleton_l, (left_id_L ∅ (∪)).
Qed.

Lemma lays_over_register_canonical_role name role_fn :
  lays_over (register_canonical_role name role_fn).
Proof.
  left. exists (), ∅, {[ name := role_fn ]}.
  intros reg. unfold register_canonical_role, overlay.
  by rewrite insert_union_singleton_l, (left_id_L ∅ (∪)).
Qed.

Lemma lays_over_import_module env name : lays_over (import_module env name).
Proof.
  unfold import_module. destruct (importable env !! name);
    [apply lays_over_ret | apply lays_over_raise].
Qed.

Lemma lays_over_getattr module_name module attr :
  lays_over (getattr module_name module attr).
Proof.
  unfold getattr. destruct (module !! attr);
    [apply lays_over_ret | apply lays_over_raise].
Qed.

Lemma lays_over_from_import env name attr : lays_over (from_import env name attr).
Proof.
  unfold from_import. apply lays_over_bind; [apply lays_over_import_module |].
  intros module. destruct (module !! attr);
    [apply lays_over_ret | apply lays_over_raise].
Qed.

Ltac lays_over_split :=
  repeat
    (cbv beta zeta;
     lazymatch goal with
     | |- lays_over (mret _) => apply lays_over_ret
     | |- lays_over (raise _) => apply lays_over_raise
     | |- lays_over (import_module _ _) => apply lays_over_import_module
     | |- lays_over (getattr _ _ _) => apply lays_over_getattr
     | |- lays_over (from_import _ _ _) => apply lays_over_from_import
     | |- lays_over (_add_directive _ _ _ _) => apply lays_over_add_directive
     | |- lays_over (register_canonical_role _ _) =>
         apply lays_over_register_canonical_role
     | |- lays_over (for_each _ _) => apply lays_over_for_each; intros ? ?
     | |- lays_over (_ ≫= _) => apply lays_over_bind; [| intros ?]
     | |- lays_over (try_except_ImportError _ _) =>
         apply lays_over_try_except; [| intros ?]
     | |- lays_over (register_domain _) => unfold register_domain
     | |- lays_over (register_base_directive _ _) => unfold register_base_directive
     | |- lays_over (register_documenter _ _) => unfold register_documenter
     | |- lays_over (register_sphinx_tabs _) => unfold register_sphinx_tabs
     | |- lays_over (register_sphinx_click _) => unfold register_sphinx_click
     | |- lays_over (register_sphinxarg _) => unfold register_sphinxarg
     | |- lays_over (register_esp_docs _) => unfold register_esp_docs
     | |- lays_over (_add_optional_directive _ _ _ _) =>
         unfold _add_optional_directive
     | |- lays_over (let '(_, _) := ?x in _) => destruct x
     | |- lays_over (match ?x with Some _ => _ | None => _ end) => destruct x
     | |- lays_over (if ?b then _ else _) => destruct b
     end).

Lemma register_overlay env : lays_over (register env).
Proof. unfold register. lays_over_split. Qed.

(** X12: what [register] does depends on the host environment only. It
    returns from every registry, or raises the same exception from every
    registry; and the registrations it makes are the same ones, laid over
    whatever the registries held: an entry under a name it does not register
    is kept, and no entry is removed. *)
Theorem register_lays_over env :
  (∃ Wd Wr, ∀ reg0,
     register env reg0 = Return () (overlay Wd Wr reg0)) ∨
  (∃ e Wd Wr, ∀ reg0,
     register env reg0 = Raised e (overlay Wd Wr reg0)).
Proof.
  destruct (register_overlay env) as [([] & Wd & Wr & H) | (e & Wd & Wr & H)];
    [left | right]; eauto.
Qed.

(** ** How [register] fails, and what it leaves behind then *)

Lemma stable_Raised {A} E (m : M A) reg e reg' :
  stable E m → E reg → m reg = Raised e reg' → E reg'.
Proof. intros Hm HE Hr. specialize (Hm reg HE). by rewrite Hr in Hm. Qed.

Lemma bind_Raised {A B} (m : M A) (f : A → M B) reg e reg' :
  (m ≫= f) reg = Raised e reg' →
  m reg = Raised e reg' ∨ ∃ a r, m reg = Return a r ∧ f a r = Raised e reg'.
Proof.
  unfold mbind, M_bind. destruct (m reg) as [a r | e' r]; intros H.
  - right. by exists a, r.
  - left. by injection H as -> ->.
Qed.

Lemma for_each_Raised {A} (l : list A) (body : A → M unit) reg e reg' :
  for_each l body reg = Raised e reg' →
  ∃ x r, x ∈ l ∧ body x r = Raised e reg'.
Proof.
  revert reg. induction l as [| x l IH]; intros reg H;
    [unfold for_each, mret, M_ret in H; discriminate H |].
  simpl in H. apply bind_Raised in H as [H | ([] & r & _ & H)].
  - exists x, reg. split; [left | done].
  - destruct (IH r H) as (y & r' & Hy & Hr'). exists y, r'. split; [by right | done].
Qed.

Lemma try_except_Raised {A} (body : M A) (orelse : A → M unit) reg e reg' :
  try_except_ImportError body orelse reg = Raised e reg' →
  ((∀ n, e ≠ ImportError n) ∧ body reg = Raised e reg') ∨
  ∃ a r, body reg = Return a r ∧ orelse a r = Raised e reg'.
Proof.
  unfold try_except_ImportError.
  destruct (body reg) as [a r | [name | obj attr | k] r]; intros H.
  - right. by exists a, r.
  - discriminate H.
  - injection H as <- <-. by left.
  - injection H as <- <-. by left.
Qed.

Lemma import_module_Return env name reg module reg' :
  import_module env name reg = Return module reg' →
  importable env !! name = Some module.
Proof.
  unfold import_module. destruct (importable env !! name); [| done].
  by intros [= -> _].
Qed.

Lemma import_module_Raised env name reg e reg' :
  import_module env name reg = Raised e reg' →
  e = import_failure env name ∧ importable env !! name = None.
Proof.
  unfold import_module. destruct (importable env !! name); [done |].
  by intros [= <- _].
Qed.

Lemma getattr_Raised module_name (module : PyModule) attr reg e reg' :
  getattr module_name module attr reg = Raised e reg' →
  e = AttributeError module_name attr ∧ module !! attr = None.
Proof.
  unfold getattr. destruct (module !! attr); [done |].
  by intros [= <- _].
Qed.

Lemma from_import_Raised env name attr reg e reg' :
  from_import env name attr reg = Raised e reg' →
  (e = import_failure env name ∧ importable env !! name = None) ∨
  e = ImportError name.
Proof.
  unfold from_import. intros [H | (module & r & _ & H)]%bind_Raised.
  - left. by apply import_module_Raised in H.
  - right. destruct (module !! attr); [done |]. by injection H as <-.
Qed.

(** Follows a run that raised down to the statement that raised. *)
Ltac raised H :=
  cbv beta zeta in H;
  lazymatch type of H with
  | (_ ≫= _) _ = Raised _ _ =>
      let Hm := fresh "Hm" in
      apply bind_Raised in H as [H | (? & ? & Hm & H)];
      [ raised H
      | try (apply import_module_Return in Hm); raised H ]
  | for_each _ _ _ = Raised _ _ =>
      apply for_each_Raised in H as (? & ? & ? & H); raised H
  | try_except_ImportError _ _ _ = Raised _ _ =>
      let Hm := fresh "Hm" in
      apply try_except_Raised in H as [(? & H) | (? & ? & Hm & H)];
      [ raised H
      | try (apply import_module_Return in Hm); raised H ]
  | _add_directive _ _ _ _ _ = Raised _ _ => discriminate H
  | register_canonical_role _ _ _ = Raised _ _ => discriminate H
  | mret _ _ = Raised _ _ => discriminate H
  | import_module _ _ _ = Raised _ _ =>
      apply import_module_Raised in H as [? ?]
  | getattr _ _ _ _ = Raised _ _ => apply getattr_Raised in H as [? ?]
  | from_import _ _ _ _ = Raised _ _ =>
      apply from_import_Raised in H as [[? ?] | ?]
  | register_domain _ _ = _ => unfold register_domain in H; raised H
  | register_base_directive _ _ _ = _ =>
      unfold register_base_directive in H; raised H
  | register_documenter _ _ _ = _ => unfold register_documenter in H; raised H
  | register_sphinx_tabs _ _ = _ => unfold register_sphinx_tabs in H; raised H
  | register_sphinx_click _ _ = _ => unfold register_sphinx_click in H; raised H
  | register_sphinxarg _ _ = _ => unfold register_sphinxarg in H; raised H
  | register_esp_docs _ _ = _ => unfold register_esp_docs in H; raised H
  | _add_optional_directive _ _ _ _ _ = _ =>
      unfold _add_optional_directive in H; raised H
  | (let '(_, _) := ?x in _) _ = _ => destruct x; raised H
  | (match ?x with Some _ => _ | None => _ end) _ = _ =>
      destruct x eqn:?; raised H
  | (if ?b then _ else _) _ = _ => destruct b eqn:?; raised H
  | _ => idtac
  end.

(** The import that failed, among those of the optional package [p]. *)
Ltac failed_import_of p :=
  lazymatch goal with
  | Hn : importable _ !! ?name = None |- _ =>
      exists p, name; eexists;
      split; [solve [vm_compute; repeat constructor] |];
      split; [solve [simpl; repeat constructor] |];
      split; [exact Hn |]; split; [reflexivity | assumption]
  end.

(** The class that is missing, among those the block of [p] reads. *)
Ltac missing_class_of p :=
  lazymatch goal with
  | |- package_failure _ (AttributeError ?n ?c) =>
      exists p, n, c; eexists;
      split; [solve [repeat constructor] |];
      split; [solve [simpl; repeat constructor] |];
      split; [eassumption |]; split; [eassumption | reflexivity]
  end.

(** X14: where the modules hold classes under the names looked up,
    [register] raises in three ways only: a directive of the base grammar,
    not excluded, whose module docutils cannot import (whatever the import
    raises) or whose class is not in the module ([AttributeError]); one of
    [sphinx_tabs], [sphinx_click], [sphinxarg] whose module is there and
    lacks a class ([AttributeError]); or the import of an optional package
    that raises something else than [ImportError]. So an [ImportError] from
    the import of an optional package never leaves [register]: one that
    does comes from a module of the base grammar. *)
Theorem register_failures env reg0 e reg :
  register env reg0 = Raised e reg →
  (base_grammar_failure env e ∨ package_failure env e ∨
   optional_import_failure env e) ∧
  ((∃ n, e = ImportError n) → base_grammar_failure env e).
Proof.
  intros H.
  cut (base_grammar_failure env e ∨ package_failure env e ∨
       optional_import_failure env e).
  { intros Hways. split; [exact Hways |]. intros [n ->].
    destruct Hways as [Hbase | [Hpackage | Himport]]; [exact Hbase | |].
    - destruct Hpackage as (? & ? & ? & ? & _ & _ & _ & _ & Heq).
      discriminate Heq.
    - destruct Himport as (? & ? & ? & _ & _ & _ & _ & Hne).
      by destruct (Hne n). }
  unfold register in H. raised H.
  all: try discriminate; subst.
  all: try (exfalso; match goal with
                     | Hne : ∀ n, ImportError _ ≠ ImportError n |- _ =>
                         by eapply Hne
                     end).
  all: first
    [ left; eexists _, _, _; split; [eassumption |];
      split; [by eapply bool_decide_eq_false_1 |];
      first [ left; split; [eassumption | reflexivity]
            | right; eexists; split; [eassumption |]; split;
              [eassumption | reflexivity] ]
    | right; left;
      first [ missing_class_of sphinx_tabs | missing_class_of sphinx_click
            | missing_class_of sphinxarg ]
    | right; right;
      first
        [ failed_import_of sphinx_tabs | failed_import_of sphinx_click
        | failed_import_of sphinxarg | failed_import_of esp_docs
        | failed_import_of (probed "blockdiag" "Blockdiag" "sphinxcontrib.blockdiag")
        | failed_import_of (probed "packetdiag" "Packetdiag" "sphinxcontrib.packetdiag")
        | failed_import_of (probed "rackdiag" "Rackdiag" "sphinxcontrib.rackdiag")
        | failed_import_of (probed "seqdiag" "Seqdiag" "sphinxcontrib.seqdiag")
        | failed_import_of
            (probed "wavedrom" "WavedromDirective" "sphinxcontrib.wavedrom")
        | failed_import_of
            (probed "doxygenstruct" "DoxygenClassDirective"
               "breathe.directives.class_like")
        | failed_import_of
            (probed "doxygenfunction" "DoxygenFunctionDirective"
               "breathe.directives.function") ] ].
Qed.

Lemma raised_registry (o : Outcome unit) e :
  match o with Return _ _ => False | Raised e' _ => e' = e end →
  o = Raised e match o with Return _ reg => reg | Raised _ reg => reg end.
Proof.
  destruct o as [[] reg | e' reg]; [done | by intros ->].
Qed.

Lemma sample_register_old_tabs :
  register Sample.env_old_tabs empty_registry
    = Raised (AttributeError "sphinx_tabs.tabs" "GroupTabDirective")
        (Sample.registry Sample.env_old_tabs).
Proof.
  unfold Sample.registry.
  refine (raised_registry (register Sample.env_old_tabs empty_registry)
            (AttributeError "sphinx_tabs.tabs" "GroupTabDirective") _).
  vm_compute. reflexivity.
Qed.

Lemma register_failures_witness :
  base_grammar_failure Sample.env_old_tabs
    (AttributeError "sphinx_tabs.tabs" "GroupTabDirective") ∨
  package_failure Sample.env_old_tabs
    (AttributeError "sphinx_tabs.tabs" "GroupTabDirective") ∨
  optional_import_failure Sample.env_old_tabs
    (AttributeError "sphinx_tabs.tabs" "GroupTabDirective").
Proof.
  exact (proj1 (register_failures Sample.env_old_tabs empty_registry _ _
                  sample_register_old_tabs)).
Defined.

(** X15: a [register] that is interrupted by an exception has registered
    nothing but interceptors by then: every directive in the registry it
    leaves is left over from before, or runs as a passthrough and carries the
    relaxed option schema. *)
Theorem interrupted_register_passthrough env reg0 e reg name c :
  register env reg0 = Raised e reg →
  _directives reg !! name = Some c →
  _directives reg0 !! name = Some c ∨
  ((∀ self, d_class self = c → run self = Some ([directive self], [])) ∧
   class_getattr c "option_spec" = Some (VOptionSpec DummyOptionSpec)).
Proof.
  intros Hrun.
  cut (on_directives
         (entries_since (_directives reg0)
            (λ _ c, runs_passthrough c ∧
                    class_getattr c "option_spec" = Some (VOptionSpec DummyOptionSpec)))
         reg).
  { intros H. apply H. }
  eapply stable_Raised; [| apply entries_since_refl | exact Hrun].
  unfold register. stable_split.
  all: apply stable_add_directive; intros m; apply entries_since_insert.
  all: split;
       [ apply interceptor_runs_passthrough; interceptor_attrs
       | by rewrite interceptor_getattr by interceptor_attrs ].
Qed.

Lemma interrupted_register_passthrough_witness :
  let c := interceptor_class (Sample.host_directive "TabsDirective") None
             (Some false) in
  _directives (Sample.registry Sample.env_old_tabs) !! "tabs" = Some c ∧
  class_getattr c "option_spec" = Some (VOptionSpec DummyOptionSpec).
Proof.
  intros c.
  assert (_directives (Sample.registry Sample.env_old_tabs) !! "tabs" = Some c)
    as Hc by (vm_compute; reflexivity).
  split; [exact Hc |].
  destruct (interrupted_register_passthrough Sample.env_old_tabs empty_registry
              _ _ "tabs" c sample_register_old_tabs Hc) as [H | [_ H]].
  - vm_compute in H. discriminate H.
  - exact H.
Defined.

(** X16: [register] registers directives under no other names than the
    qualified names of the domains' directives, the names of the default
    domain's directives, [role], the names of the base grammar that are not
    excluded, and the names of the later steps. *)
Theorem registered_directive_names env reg0 reg name c :
  register env reg0 = Return () reg →
  _directives reg !! name = Some c →
  _directives reg0 !! name = Some c ∨ registered_directive_name env name.
Proof.
  intros Hrun.
  cut (on_directives
         (entries_since (_directives reg0)
            (λ name _, registered_directive_name env name)) reg).
  { intros H. apply H. }
  eapply stable_Return; [| apply entries_since_refl | exact Hrun].
  unfold register. stable_split.
  all: apply stable_add_directive; intros m; apply entries_since_insert.
  all: unfold registered_directive_name.
  all: first
    [ left; eexists _, _, _;
      split; [apply list_elem_of_fmap; eauto |];
      split; [eassumption | reflexivity]
    | right; left; apply list_elem_of_fmap; eexists (_, _);
      split; [reflexivity | eassumption]
    | right; right; left; reflexivity
    | right; right; right; left;
      split;
      [ apply list_elem_of_fmap; eexists (_, (_, _));
        split; [reflexivity | eassumption]
      | by eapply bool_decide_eq_false_1 ]
    | right; right; right; right; unfold later_directive_names;
      rewrite !elem_of_app;
      first
        [ left; solve [repeat constructor]
        | right; right; solve [vm_compute; repeat constructor]
        | right; left; apply elem_of_autodoc_directive_names;
          [assumption | by eapply bool_decide_eq_true_1] ] ].
Qed.

Lemma registered_directive_names_witness :
  registered_directive_name Sample.env "note".
Proof.
  assert (_directives Sample.reg !! "note"
            = Some (interceptor_class (Sample.host_directive "Note") None
                      (Some false))) as Hc by (vm_compute; reflexivity).
  destruct (registered_directive_names Sample.env empty_registry Sample.reg
              "note" _ sample_register Hc) as [H | H].
  - vm_compute in H. discriminate H.
  - exact H.
Defined.
